(** * minitorch, module 0: the Module / Parameter tree

    A shallow embedding of [minitorch/module.py].

    Python objects live in a store and are named by locations, so that
    aliasing and cyclic ownership can be expressed.  A [Module] instance
    is represented by its instance dictionary [__dict__]; the two
    registries [_modules] and [_parameters] and the flag [training] are
    entries of that dictionary, exactly as [Module.__init__] creates them
    through [Module.__setattr__].  Python dictionaries keep insertion
    order, so they are association lists with unique keys.

    Loops that Python does not bound ([while] in [train] and [eval]) take
    a fuel argument; running out of fuel is the outcome [OutOfFuel], which
    no finite amount of fuel turns into a result when the loop diverges. *)

From stdpp Require Import base gmap strings list relations.

Set Warnings "-register-all".


(** ** Values *)

Abbreviation loc := nat (only parsing).

(** Data without attributes of interest: [None], booleans and numbers. *)
Inductive plain :=
| PNone
| PBool (b : bool)
| PNum (z : Z).

(** Values that are assigned to the attributes of a Module.  Parameter
    and Module instances are references into the store; a dictionary
    carries its entries in insertion order. *)
Inductive pyval :=
| VPlain (p : plain)
| VParameter (l : loc)
| VModule (l : loc)
| VDict (d : list (string * pyval)).

Abbreviation VNone := (VPlain PNone).
Abbreviation VBool b := (VPlain (PBool b)).
Abbreviation VNum z := (VPlain (PNum z)).

(** Values wrapped by a Parameter in this development: plain data, for
    which [hasattr(x, "requires_grad_")] is false, or a reference to a
    tracked variable, for which it is true.  Modules, Parameters and
    dictionaries as wrapped values are left out. *)
Inductive wrapped :=
| WPlain (p : plain)
| WVar (l : loc).

(** isinstance(val, Parameter), isinstance(val, Module) *)
Definition is_Parameter (v : pyval) : bool :=
  match v with VParameter _ => true | _ => false end.

Definition is_Module (v : pyval) : bool :=
  match v with VModule _ => true | _ => false end.


(** ** Insertion-ordered dictionaries *)

Section dict.
Context {A : Type}.

Fixpoint dict_get (k : string) (d : list (string * A)) : option A :=
  match d with
  | [] => None
  | (k', v) :: d' => if decide (k = k') then Some v else dict_get k d'
  end.

(** [d[k] = v]: an existing key keeps its position, a new key goes last. *)
Fixpoint dict_set (k : string) (v : A) (d : list (string * A)) : list (string * A) :=
  match d with
  | [] => [(k, v)]
  | (k', v') :: d' =>
      if decide (k = k') then (k, v) :: d' else (k', v') :: dict_set k v d'
  end.

Definition dict_keys (d : list (string * A)) : list string := d.*1.
Definition dict_values (d : list (string * A)) : list A := d.*2.

End dict.

Abbreviation dict := (list (string * pyval)).

(** ** Outcomes of running a method *)

Inductive exn :=
| NotImplementedError
| KeyError
| TypeError
| AttributeError.

(** [Stuck] marks a reference to a location the store does not hold; no
    Python state corresponds to it. *)
Inductive outcome (A : Type) :=
| Ok (a : A)
| Raise (e : exn)
| OutOfFuel
| Stuck.

Arguments Ok {A} a.
Arguments Raise {A} e.
Arguments OutOfFuel {A}.
Arguments Stuck {A}.

#[global] Instance outcome_ret : MRet outcome := @Ok.
#[global] Instance outcome_bind : MBind outcome := λ A B f m,
  match m with
  | Ok a => f a
  | Raise e => Raise e
  | OutOfFuel => OutOfFuel
  | Stuck => Stuck
  end.

(** ** Python's operations on the values above *)

(** [d[k]] on a dictionary: KeyError when the key is missing. *)
Definition subscript (d : dict) (k : string) : outcome pyval :=
  match dict_get k d with
  | Some v => Ok v
  | None => Raise KeyError
  end.

(** [k in v]: None, bool, int, Parameter and Module are not containers. *)
Definition contains (k : string) (v : pyval) : outcome bool :=
  match v with
  | VDict d => Ok (bool_decide (is_Some (dict_get k d)))
  | _ => Raise TypeError
  end.

(** [v[k]] *)
Definition getitem (v : pyval) (k : string) : outcome pyval :=
  match v with
  | VDict d => subscript d k
  | _ => Raise TypeError
  end.

(** [v[k] = x] *)
Definition setitem (v : pyval) (k : string) (x : pyval) : outcome pyval :=
  match v with
  | VDict d => Ok (VDict (dict_set k x d))
  | _ => Raise TypeError
  end.

(** [v.values()].  For a Module, [values] resolves through
    [Module.__getattr__] to something that cannot be called that way. *)
Definition values (v : pyval) : outcome (list pyval) :=
  match v with
  | VDict d => Ok (dict_values d)
  | VModule _ => Raise TypeError
  | _ => Raise AttributeError
  end.

(** ** class Module *)

(** [super().__setattr__(key, val)]: a plain store into [__dict__]. *)
Definition object__setattr__ (self : dict) (key : string) (val : pyval) : dict :=
  dict_set key val self.

Definition Module__setattr__ (self : dict) (key : string) (val : pyval) : outcome dict :=
  if is_Parameter val then
    reg ← subscript self "_parameters";
    reg' ← setitem reg key val;
    Ok (dict_set "_parameters" reg' self)
  else if is_Module val then
    reg ← subscript self "_modules";
    reg' ← setitem reg key val;
    Ok (dict_set "_modules" reg' self)
  else
    Ok (object__setattr__ self key val).

Definition Module__getattr__ (self : dict) (key : string) : outcome pyval :=
  ps ← subscript self "_parameters";
  b ← contains key ps;
  if b : bool then getitem ps key
  else
    ms ← subscript self "_modules";
    b' ← contains key ms;
    if b' : bool then getitem ms key
    else Ok VNone.

(** Reading a data attribute: the instance dictionary first,
    [__getattr__] only when the name is not found there. *)
Definition Module__getattribute__ (self : dict) (key : string) : outcome pyval :=
  match dict_get key self with
  | Some v => Ok v
  | None => Module__getattr__ self key
  end.

Definition Module__init__ (self : dict) : outcome dict :=
  self ← Module__setattr__ self "_modules" (VDict []);
  self ← Module__setattr__ self "_parameters" (VDict []);
  Module__setattr__ self "training" (VBool true).

(** The module heap: the instance dictionary of every Module. *)
Abbreviation mheap := (gmap loc dict).

(** [obj.key = val] for an arbitrary receiver.  A Parameter accepts
    the attribute, which the module heap does not record. *)
Definition setattr (h : mheap) (obj : pyval) (key : string) (val : pyval) : outcome mheap :=
  match obj with
  | VModule l =>
      match h !! l with
      | Some d => d' ← Module__setattr__ d key val; Ok (<[l := d']> h)
      | None => Stuck
      end
  | VParameter _ => Ok h
  | _ => Raise AttributeError
  end.

(** [obj.key], for the data attributes [_modules] and [training]. *)
Definition getattr (h : mheap) (obj : pyval) (key : string) : outcome pyval :=
  match obj with
  | VModule l =>
      match h !! l with
      | Some d => Module__getattribute__ d key
      | None => Stuck
      end
  | _ => Raise AttributeError
  end.

Definition Module_modules (h : mheap) (self : loc) : outcome (list pyval) :=
  match h !! self with
  | Some d => m ← subscript d "_modules"; values m
  | None => Stuck
  end.

(** The [for] loop of [train]: one level of the tree. *)
Fixpoint train_for (h : mheap) (nodes_to_process future_nodes : list pyval)
  : outcome (mheap * list pyval) :=
  match nodes_to_process with
  | [] => Ok (h, future_nodes)
  | node :: rest =>
      h ← setattr h node "training" (VBool true);
      ms ← getattr h node "_modules";
      vs ← values ms;
      train_for h rest (future_nodes ++ vs)
  end.

(** The [while] loop of [train]; one unit of fuel per iteration. *)
Fixpoint train_while (fuel : nat) (h : mheap) (nodes_to_process : list pyval)
  : outcome mheap :=
  match nodes_to_process with
  | [] => Ok h
  | _ :: _ =>
      match fuel with
      | O => OutOfFuel
      | S fuel =>
          r ← train_for h nodes_to_process [];
          train_while fuel r.1 r.2
      end
  end.

Definition Module_train (fuel : nat) (h : mheap) (self : loc) : outcome mheap :=
  h ← setattr h (VModule self) "training" (VBool true);
  ms ← getattr h (VModule self) "_modules";
  nodes_to_process ← values ms;
  train_while fuel h nodes_to_process.

(** The [while] loop of [eval] over the deque; one unit of fuel per
    [popleft]. *)
Fixpoint eval_while (fuel : nat) (h : mheap) (que : list pyval) : outcome mheap :=
  match que with
  | [] => Ok h
  | node :: que =>
      match fuel with
      | O => OutOfFuel
      | S fuel =>
          h ← setattr h node "training" (VBool false);
          ms ← getattr h node "_modules";
          vs ← values ms;
          eval_while fuel h (que ++ vs)
      end
  end.

Definition Module_eval (fuel : nat) (h : mheap) (self : loc) : outcome mheap :=
  h ← setattr h (VModule self) "training" (VBool false);
  ms ← getattr h (VModule self) "_modules";
  que ← values ms;
  eval_while fuel h que.

Definition Module_named_parameters (h : mheap) (self : loc)
  : outcome (list (string * loc)) :=
  Raise NotImplementedError.

Definition Module_parameters (h : mheap) (self : loc) : outcome (list loc) :=
  Raise NotImplementedError.

(** ** class Parameter *)

(** Modelled from the spec: the differentiable value type (the
    [Variable] of the docstring of [Parameter]) is not defined in
    module.py; section 6 of the spec gives its interface, "a method to
    mark a value as requiring gradient tracking, and a writable [name]
    attribute".  A tracked value is the state those two touch. *)
Record tracked := Tracked {
  requires_grad : bool;
  tracked_name : option string
}.

(** [v.requires_grad_(b)] *)
Definition requires_grad_ (b : bool) (v : tracked) : tracked :=
  {| requires_grad := b; tracked_name := tracked_name v |}.

(** [v.name = n] *)
Definition set_name (n : string) (v : tracked) : tracked :=
  {| requires_grad := requires_grad v; tracked_name := Some n |}.

(** A Parameter instance: [self.value] and [self.name]. *)
Record param := Param {
  value : wrapped;
  name : option string
}.

(** The store: Module instances, Parameter instances, tracked values. *)
Record store := Store {
  modules : gmap loc dict;
  params : gmap loc param;
  vars : gmap loc tracked
}.

(** [hasattr(x, "requires_grad_")] *)
Definition hasattr_requires_grad_ (x : wrapped) : bool :=
  match x with WVar _ => true | WPlain _ => false end.

(** Truth value of [self.name]: [None] and the empty string are false. *)
Definition truthy (n : option string) : bool :=
  match n with
  | Some s => negb (bool_decide (s = ""))
  | None => false
  end.

(** The two statements under [if hasattr(x, "requires_grad_")]. *)
Definition track (vs : gmap loc tracked) (x : wrapped) (n : option string)
  : outcome (gmap loc tracked) :=
  match x with
  | WVar l =>
      match vs !! l with
      | Some v =>
          let v := requires_grad_ true v in
          if truthy n then Ok (<[l := set_name (default "" n) v]> vs)
          else Ok (<[l := v]> vs)
      | None => Stuck
      end
  | WPlain _ => Ok vs
  end.

(** [Parameter.__init__(self, x, name)] on the fresh instance [self]. *)
Definition Parameter__init__ (st : store) (self : loc) (x : wrapped)
  (name : option string) : outcome store :=
  let ps := <[self := {| value := x; name := name |}]> (params st) in
  if hasattr_requires_grad_ x then
    vs ← track (vars st) x name;
    Ok {| modules := modules st; params := ps; vars := vs |}
  else
    Ok {| modules := modules st; params := ps; vars := vars st |}.

(** [Parameter.update(self, x)] *)
Definition Parameter_update (st : store) (self : loc) (x : wrapped) : outcome store :=
  match params st !! self with
  | None => Stuck
  | Some p =>
      let ps := <[self := {| value := x; name := name p |}]> (params st) in
      if hasattr_requires_grad_ x then
        vs ← track (vars st) x (name p);
        Ok {| modules := modules st; params := ps; vars := vs |}
      else
        Ok {| modules := modules st; params := ps; vars := vars st |}
  end.

(** [Module.add_parameter(self, k, v)]; [Parameter(v, k)] allocates the
    new instance at an unused location. *)
Definition Module_add_parameter (st : store) (self : loc) (k : string) (v : wrapped)
  : outcome (store * loc) :=
  let val := fresh (dom (params st)) in
  st ← Parameter__init__ st val v (Some k);
  match modules st !! self with
  | None => Stuck
  | Some d =>
      reg ← subscript d "_parameters";
      reg' ← setitem reg k (VParameter val);
      Ok ({| modules := <[self := dict_set "_parameters" reg' d]> (modules st);
             params := params st; vars := vars st |}, val)
  end.

(** [Module()] allocates an instance and runs [__init__] on it. *)
Definition Module_new (st : store) : outcome (store * loc) :=
  let self := fresh (dom (modules st)) in
  d ← Module__init__ [];
  Ok ({| modules := <[self := d]> (modules st);
         params := params st; vars := vars st |}, self).

(** [m.key = val] in the store. *)
Definition Module_assign (st : store) (self : loc) (key : string) (val : pyval)
  : outcome store :=
  h ← setattr (modules st) (VModule self) key val;
  Ok {| modules := h; params := params st; vars := vars st |}.

(** ** Programs over the public interface *)

(** One call of the interface: [Module()], creating a tracked value,
    [self.key = val], [self.add_parameter(k, v)], [self.train()],
    [self.eval()], [p.update(x)]. *)
Inductive op :=
| OpModule
| OpTracked (v : tracked)
| OpAssign (self : loc) (key : string) (val : pyval)
| OpAddParameter (self : loc) (k : string) (v : wrapped)
| OpTrain (fuel : nat) (self : loc)
| OpEval (fuel : nat) (self : loc)
| OpUpdate (p : loc) (x : wrapped).

Definition step (st : store) (o : op) : outcome store :=
  match o with
  | OpModule => r ← Module_new st; Ok r.1
  | OpTracked v =>
      Ok {| modules := modules st; params := params st;
            vars := <[fresh (dom (vars st)) := v]> (vars st) |}
  | OpAssign self key val => Module_assign st self key val
  | OpAddParameter self k v => r ← Module_add_parameter st self k v; Ok r.1
  | OpTrain fuel self =>
      h ← Module_train fuel (modules st) self;
      Ok {| modules := h; params := params st; vars := vars st |}
  | OpEval fuel self =>
      h ← Module_eval fuel (modules st) self;
      Ok {| modules := h; params := params st; vars := vars st |}
  | OpUpdate p x => Parameter_update st p x
  end.

Fixpoint run (st : store) (ops : list op) : outcome store :=
  match ops with
  | [] => Ok st
  | o :: ops => st ← step st o; run st ops
  end.

Definition empty_store : store :=
  {| modules := ∅; params := ∅; vars := ∅ |}.

(** ** Registries and the module graph *)

(** The entries of the registry stored under [slot]. *)
Definition registry (slot : string) (d : dict) : option dict :=
  match dict_get slot d with
  | Some (VDict reg) => Some reg
  | _ => None
  end.






Definition as_module (v : pyval) : option loc :=
  match v with VModule l => Some l | _ => None end.

(** The children of the Module at [l], in registration order; defined
    when [l] holds a Module whose [_modules] is a dictionary of Modules. *)
Definition children (h : mheap) (l : loc) : option (list loc) :=
  d ← h !! l;
  reg ← registry "_modules" d;
  mapM as_module (dict_values reg).

Definition edge (h : mheap) (a b : loc) : Prop :=
  ∃ cs, children h a = Some cs ∧ b ∈ cs.

(** Reachable through [_modules], the start included. *)
Definition reachable (h : mheap) : relation loc := rtc (edge h).

(** Every Module reachable from [m] is a well-formed node. *)
Definition closed_from (h : mheap) (m : loc) : Prop :=
  ∀ a, reachable h m a → is_Some (children h a).

(** A cycle can be reached from [m]. *)
Definition reaches_cycle (h : mheap) (m : loc) : Prop :=
  ∃ a, reachable h m a ∧ tc (edge h) a a.

(** Finite unfoldings of the graph. *)
Inductive tree :=
| Node (root : loc) (kids : list tree).

Definition root (t : tree) : loc :=
  match t with Node l _ => l end.

Fixpoint nodes (t : tree) : list loc :=
  match t with
  | Node l kids => l :: flat_map nodes kids
  end.

Fixpoint height (t : tree) : nat :=
  match t with
  | Node _ kids => S (foldr (λ k n, height k `max` n) 0 kids)
  end.

Inductive unfolds (h : mheap) : tree → Prop :=
| unfolds_Node l kids :
    children h l = Some (root <$> kids) →
    Forall (unfolds h) kids →
    unfolds h (Node l kids).

(** The graph below [m] unfolds to a finite tree: no cycle. *)
Definition acyclic (h : mheap) (m : loc) : Prop :=
  ∃ t, root t = m ∧ unfolds h t.

(** Tree-shaped: acyclic, and no Module is owned twice. *)
Definition tree_shaped (h : mheap) (m : loc) : Prop :=
  ∃ t, root t = m ∧ unfolds h t ∧ NoDup (nodes t).

(** [node.training = b] on the Module at [l]. *)
Definition mark (b : bool) (h : mheap) (l : loc) : mheap :=
  alter (dict_set "training" (VBool b)) l h.

(** The per-node update applied along a visiting order. *)
Definition mark_all (b : bool) (h : mheap) (order : list loc) : mheap :=
  foldl (mark b) h order.

(** The value of [m.training]. *)
Definition training (h : mheap) (l : loc) : option pyval :=
  d ← h !! l; dict_get "training" d.

(** The children of [l], none when [l] is not a well-formed Module. *)
Definition kids_of (h : mheap) (l : loc) : list loc :=
  default [] (children h l).

Definition subtrees (t : tree) : list tree :=
  match t with Node _ kids => kids end.

(** A result, when there is one, satisfies [P]. *)
Definition when_ok {A} (P : A → Prop) (o : outcome A) : Prop :=
  match o with
  | Ok a => P a
  | _ => True
  end.



(** ** The rest of class Module *)

(** [Parameter(x, name)]: a new instance at an unused location. *)
Definition Parameter_new (st : store) (x : wrapped) (name : option string)
  : outcome (store * loc) :=
  let self := fresh (dom (params st)) in
  st ← Parameter__init__ st self x name;
  Ok (st, self).

(** [Module.__call__(self, *args, **kwargs)].  [Module] defines no
    [forward], so [self.forward] goes through the attribute lookup; of
    the values it can give only a Module can be called, and calling it
    is [__call__] again.  [depth] bounds the nesting of calls, as the
    interpreter does; [OutOfFuel] is its RecursionError. *)
Fixpoint Module__call__ (depth : nat) (h : mheap) (self : loc) : outcome pyval :=
  match depth with
  | O => OutOfFuel
  | S depth =>
      match h !! self with
      | None => Stuck
      | Some d =>
          forward ← Module__getattribute__ d "forward";
          match forward with
          | VModule l => Module__call__ depth h l
          | _ => Raise TypeError
          end
      end
  end.

(** [v.items()] *)
Definition items (v : pyval) : outcome (list (string * pyval)) :=
  match v with
  | VDict d => Ok d
  | VModule _ => Raise TypeError
  | _ => Raise AttributeError
  end.

(** The line feed, and the one-character string of it. *)
Definition LF : Ascii.ascii := Ascii.ascii_of_nat 10.
Definition newline : string := String LF "".

(** [s.split("\n")] *)
Fixpoint split_lines (s : string) : list string :=
  match s with
  | EmptyString => [""]
  | String c s' =>
      if decide (c = LF) then "" :: split_lines s'
      else match split_lines s' with
           | line :: lines => String c line :: lines
           | [] => [String c ""]
           end
  end.

(** [sep.join(l)] *)
Fixpoint join (sep : string) (l : list string) : string :=
  match l with
  | [] => ""
  | [x] => x
  | x :: l' => x +:+ sep +:+ join sep l'
  end.

(** [n * " "] *)
Fixpoint spaces (n : nat) : string :=
  match n with
  | O => ""
  | S n => " " +:+ spaces n
  end.

(** The helper inside [__repr__]. *)
Definition _addindent (s_ : string) (numSpaces : nat) : string :=
  let s2 := split_lines s_ in
  if decide (length s2 = 1) then s_
  else
    match s2 with
    | [] => s_
    | first :: s2 =>
        let s2 := (λ line, spaces numSpaces +:+ line) <$> s2 in
        let s := join newline s2 in
        first +:+ newline +:+ s
    end.

(** A string without line feed. *)
Fixpoint one_line (s : string) : Prop :=
  match s with
  | EmptyString => True
  | String c s' => c ≠ LF ∧ one_line s'
  end.

(** The number of line feeds in a string. *)
Fixpoint count_LF (s : string) : nat :=
  match s with
  | EmptyString => 0
  | String c s' => (if decide (c = LF) then 1 else 0) + count_LF s'
  end.

Section repr.
(** [repr] of a value that is not a Module is not defined in
    module.py. *)
Context (repr_other : pyval → outcome string).

(** The [for] loop of [__repr__], given [repr] for Modules. *)
Fixpoint repr_for (repr_module : loc → outcome string)
    (its : list (string * pyval)) (child_lines : list string)
  : outcome (list string) :=
  match its with
  | [] => Ok child_lines
  | (key, module) :: its =>
      mod_str ← match module with
                | VModule l => repr_module l
                | _ => repr_other module
                end;
      let mod_str := _addindent mod_str 2 in
      repr_for repr_module its (child_lines ++ ["(" +:+ key +:+ "): " +:+ mod_str])
  end.

(** [Module.__repr__(self)]; [depth] bounds the nesting of [repr]
    calls, and [OutOfFuel] is the interpreter's RecursionError. *)
Fixpoint Module__repr__ (depth : nat) (h : mheap) (self : loc) : outcome string :=
  match depth with
  | O => OutOfFuel
  | S depth =>
      match h !! self with
      | None => Stuck
      | Some d =>
          ms ← Module__getattribute__ d "_modules";
          its ← items ms;
          lines ← repr_for (Module__repr__ depth h) its [];
          let main_str := "Module" +:+ "(" in
          let main_str :=
            match lines with
            | [] => main_str
            | _ :: _ =>
                main_str +:+ (newline +:+ "  ")
                  +:+ join (newline +:+ "  ") lines +:+ newline
            end in
          Ok (main_str +:+ ")")
      end
  end.

End repr.

(** Two heaps hold the same Modules with the same [_modules]. *)
Definition same_modules (h h' : mheap) : Prop :=
  ∀ l, (λ d, Module__getattribute__ d "_modules") <$> h !! l
       = (λ d, Module__getattribute__ d "_modules") <$> h' !! l.

(** The call returned, or went deeper than allowed. *)
Definition returns_or_overflows {A} (o : outcome A) : Prop :=
  match o with
  | Ok _ | OutOfFuel => True
  | _ => False
  end.

(** The number of lines the text of a tree of Modules takes: one for a
    Module without children, else an opening line, the lines of the
    children and a closing line. *)
Fixpoint repr_line_count (t : tree) : nat :=
  match t with
  | Node _ [] => 1
  | Node _ kids => 2 + foldr (λ k n, repr_line_count k + n) 0 kids
  end.

(** The names under which children are registered have one line. *)
Definition one_line_names (h : mheap) : Prop :=
  ∀ l d reg k v,
    h !! l = Some d → registry "_modules" d = Some reg → (k, v) ∈ reg →
    one_line k.

(** ** Concrete stores *)

(** The modules built by a program, the empty heap when it fails. *)
Definition built (ops : list op) : mheap :=
  match run empty_store ops with
  | Ok st => modules st
  | _ => ∅
  end.

(** The tree of the test at the end of module.py: a root (0), two
    branches (1, 2), two leaves under each (3, 4 and 5, 6), with the
    flags of branch1, leaf1 and leaf3 set to [False]. *)
Definition scenario_ops : list op :=
  [OpModule; OpModule; OpModule; OpModule; OpModule; OpModule; OpModule;
   OpAssign 1 "leaf1" (VModule 3); OpAssign 1 "leaf2" (VModule 4);
   OpAssign 2 "leaf3" (VModule 5); OpAssign 2 "leaf4" (VModule 6);
   OpAssign 0 "branch1" (VModule 1); OpAssign 0 "branch2" (VModule 2);
   OpAssign 1 "training" (VBool false);
   OpAssign 3 "training" (VBool false);
   OpAssign 5 "training" (VBool false)].

Definition scenario : mheap := built scenario_ops.

Definition scenario_tree : tree :=
  Node 0 [Node 1 [Node 3 []; Node 4 []]; Node 2 [Node 5 []; Node 6 []]].

(** The instance dictionary [Module()] starts with. *)
Definition fresh_module : dict :=
  [("_modules", VDict []); ("_parameters", VDict []); ("training", VBool true)].

(** A Module with one Parameter [w] and one child [child]. *)
Definition small_module : dict :=
  [("_modules", VDict [("child", VModule 1)]);
   ("_parameters", VDict [("w", VParameter 0)]);
   ("training", VBool true)].


(** [m = Module(); m.me = m]: a Module that owns itself. *)
Definition self_owner : mheap :=
  built [OpModule; OpAssign 0 "me" (VModule 0)].



(** Two branches that own the same leaf. *)
Definition diamond : mheap :=
  built [OpModule; OpModule; OpModule; OpModule;
         OpAssign 1 "shared" (VModule 3); OpAssign 2 "shared" (VModule 3);
         OpAssign 0 "left" (VModule 1); OpAssign 0 "right" (VModule 2)].

Definition diamond_tree : tree :=
  Node 0 [Node 1 [Node 3 []]; Node 2 [Node 3 []]].


(** A Module whose [_modules] was replaced by a number. *)
Definition broken_module : dict :=
  [("_modules", VNum 5); ("_parameters", VDict []); ("training", VBool true)].

(** No [repr] for values that are not Modules. *)
Definition no_repr : pyval → outcome string := λ _, Raise TypeError.

Definition fresh_heap : mheap := {[ 0 := fresh_module ]}.
Definition small_heap : mheap := {[ 0 := small_module ]}.
Definition broken_heap : mheap := {[ 0 := broken_module ]}.

(** A Module and its only child. *)
Definition pair_heap : mheap :=
  <[0 := [("_modules", VDict [("child", VModule 1)]);
          ("_parameters", VDict []); ("training", VBool true)]]>
    {[ 1 := fresh_module ]}.

(** * Properties *)

(** ** Dictionaries *)

Section dict_facts.
Context {A : Type}.
Implicit Types (d : list (string * A)) (k : string) (v : A).

Lemma dict_get_set_eq d k v : dict_get k (dict_set k v d) = Some v.
Proof.
  induction d as [|[k' v'] d IH]; simpl.
  - by rewrite decide_True.
  - destruct (decide (k = k')) as [->|Hne]; simpl.
    + by rewrite decide_True.
    + by rewrite decide_False.
Qed.

Lemma dict_get_set_ne d k k' v :
  k ≠ k' → dict_get k' (dict_set k v d) = dict_get k' d.
Proof.
  intros Hne. induction d as [|[k0 v0] d IH]; simpl.
  - by rewrite decide_False.
  - destruct (decide (k = k0)) as [->|Hk]; simpl.
    + by rewrite !decide_False.
    + by rewrite IH.
Qed.

Lemma dict_set_set d k v v' :
  dict_set k v (dict_set k v' d) = dict_set k v d.
Proof.
  induction d as [|[k0 v0] d IH]; simpl.
  - by rewrite decide_True.
  - destruct (decide (k = k0)) as [->|Hk]; simpl.
    + by rewrite decide_True.
    + by rewrite decide_False, IH.
Qed.

Lemma dict_set_id d k v : dict_get k d = Some v → dict_set k v d = d.
Proof.
  induction d as [|[k0 v0] d IH]; simpl; [done|].
  destruct (decide (k = k0)) as [->|Hk]; [congruence|].
  intros Hd. by rewrite IH.
Qed.

(** Overwriting an existing key keeps the order of the keys. *)
Lemma dict_keys_set_present d k v :
  is_Some (dict_get k d) → dict_keys (dict_set k v d) = dict_keys d.
Proof.
  unfold dict_keys. induction d as [|[k0 v0] d IH]; simpl.
  - by intros [? ?].
  - destruct (decide (k = k0)) as [->|Hk]; simpl; [done|].
    intros Hd. f_equal. by apply IH.
Qed.

Lemma dict_values_set_elem d k v x :
  x ∈ dict_values (dict_set k v d) → x = v ∨ x ∈ dict_values d.
Proof.
  unfold dict_values. induction d as [|[k0 v0] d IH]; simpl.
  - intros ?%list_elem_of_singleton. by left.
  - destruct (decide (k = k0)) as [->|Hk]; simpl.
    + intros [->|?]%elem_of_cons; [by left|]. right. by right.
    + intros [->|?]%elem_of_cons; [right; by left|].
      destruct IH as [->|?]; [done|by left|]. right. by right.
Qed.

Lemma dict_get_values d k v : dict_get k d = Some v → v ∈ dict_values d.
Proof.
  unfold dict_values. induction d as [|[k0 v0] d IH]; simpl; [done|].
  destruct (decide (k = k0)) as [->|Hk].
  - intros [= ->]. by left.
  - intros ?. right. by apply IH.
Qed.

End dict_facts.



Lemma registry_Some slot (d reg : dict) :
  registry slot d = Some reg ↔ dict_get slot d = Some (VDict reg).
Proof.
  unfold registry. destruct (dict_get slot d) as [[]|]; naive_solver.
Qed.

Lemma registry_set_eq slot (d reg : dict) :
  registry slot (dict_set slot (VDict reg) d) = Some reg.
Proof. unfold registry. by rewrite dict_get_set_eq. Qed.

Lemma registry_set_ne slot k v (d : dict) :
  k ≠ slot → registry slot (dict_set k v d) = registry slot d.
Proof. intros Hne. unfold registry. by rewrite dict_get_set_ne. Qed.

(** ** Registration protocol *)

Lemma subscript_registry slot (d reg : dict) :
  registry slot d = Some reg → subscript d slot = Ok (VDict reg).
Proof. intros Hr%registry_Some. unfold subscript. by rewrite Hr. Qed.

Lemma setattr_Parameter (d ps : dict) k l :
  registry "_parameters" d = Some ps →
  Module__setattr__ d k (VParameter l)
  = Ok (dict_set "_parameters" (VDict (dict_set k (VParameter l) ps)) d).
Proof.
  intros Hps. unfold Module__setattr__. simpl.
  by rewrite (subscript_registry _ _ _ Hps).
Qed.

Lemma setattr_Module (d ms : dict) k l :
  registry "_modules" d = Some ms →
  Module__setattr__ d k (VModule l)
  = Ok (dict_set "_modules" (VDict (dict_set k (VModule l) ms)) d).
Proof.
  intros Hms. unfold Module__setattr__. simpl.
  by rewrite (subscript_registry _ _ _ Hms).
Qed.

Lemma setattr_other (d : dict) k v :
  is_Parameter v = false → is_Module v = false →
  Module__setattr__ d k v = Ok (dict_set k v d).
Proof. intros Hp Hm. unfold Module__setattr__. by rewrite Hp, Hm. Qed.


Lemma getattr_registry_lookup_aux (d ps ms : dict) (k : string) :
  registry "_parameters" d = Some ps →
  registry "_modules" d = Some ms →
  Module__getattr__ d k
  = Ok (match dict_get k ps with
        | Some p => p
        | None => match dict_get k ms with
                  | Some m => m
                  | None => VNone
                  end
        end).
Proof.
  intros Hps Hms. unfold Module__getattr__.
  rewrite (subscript_registry _ _ _ Hps). simpl.
  destruct (dict_get k ps) as [p|] eqn:Hk.
  - rewrite bool_decide_eq_true_2 by eauto. unfold subscript. by rewrite Hk.
  - rewrite bool_decide_eq_false_2 by (by intros [? ?]).
    rewrite (subscript_registry _ _ _ Hms). simpl.
    destruct (dict_get k ms) as [m|] eqn:Hm.
    + rewrite bool_decide_eq_true_2 by eauto. unfold subscript. by rewrite Hm.
    + by rewrite bool_decide_eq_false_2 by (by intros [? ?]).
Qed.

(** C4.  The registry lookup answers with the Parameter when the name
    is a key of [_parameters], else with the Module when it is a key of
    [_modules], else with [None]; it never raises. *)
Theorem getattr_registry_lookup (d ps ms : dict) (k : string) :
  registry "_parameters" d = Some ps →
  registry "_modules" d = Some ms →
  Module__getattr__ d k
  = Ok (match dict_get k ps with
        | Some p => p
        | None => match dict_get k ms with
                  | Some m => m
                  | None => VNone
                  end
        end).
Proof.
  intros Hps Hms. unfold Module__getattr__.
  rewrite (subscript_registry _ _ _ Hps). simpl.
  destruct (dict_get k ps) as [p|] eqn:Hk.
  - rewrite bool_decide_eq_true_2 by eauto. unfold subscript. by rewrite Hk.
  - rewrite bool_decide_eq_false_2 by (by intros [? ?]).
    rewrite (subscript_registry _ _ _ Hms). simpl.
    destruct (dict_get k ms) as [m|] eqn:Hm.
    + rewrite bool_decide_eq_true_2 by eauto. unfold subscript. by rewrite Hm.
    + by rewrite bool_decide_eq_false_2 by (by intros [? ?]).
Qed.

(** ** Parameter enumeration *)

(** C2.  On a freshly constructed Module, which owns no Parameter,
    both enumerations raise [NotImplementedError] instead of returning
    the empty sequence. *)
Theorem parameters_not_implemented :
  Module__init__ [] = Ok fresh_module ∧
  registry "_parameters" fresh_module = Some [] ∧
  registry "_modules" fresh_module = Some [] ∧
  Module_named_parameters {[ 0 := fresh_module ]} 0 = Raise NotImplementedError ∧
  Module_parameters {[ 0 := fresh_module ]} 0 = Raise NotImplementedError.
Proof. repeat split; reflexivity. Qed.

(** ** The module graph *)

Lemma tree_ind' (P : tree → Prop) :
  (∀ l kids, Forall P kids → P (Node l kids)) → ∀ t, P t.
Proof.
  intros HP. fix IH 1. intros [l kids]. apply HP.
  induction kids as [|k kids IHk]; constructor; [apply IH|apply IHk].
Qed.

Lemma nodes_Node l kids : nodes (Node l kids) = l :: (kids ≫= nodes).
Proof. reflexivity. Qed.

Lemma forest_nodes_cons l kids ts :
  (Node l kids :: ts) ≫= nodes = l :: (kids ≫= nodes) ++ (ts ≫= nodes).
Proof. reflexivity. Qed.

Lemma root_in_nodes t : root t ∈ nodes t.
Proof. destruct t. rewrite nodes_Node. by left. Qed.

Lemma height_pos t : 0 < height t.
Proof. destruct t. simpl. lia. Qed.

Lemma height_kids l kids n :
  height (Node l kids) ≤ S n → Forall (λ k, height k ≤ n) kids.
Proof.
  simpl. intros H. apply Nat.succ_le_mono in H. revert H.
  induction kids as [|k kids IH]; simpl; intros H; constructor; [lia|].
  apply IH. lia.
Qed.

Lemma mapM_as_module (vs : list pyval) (cs : list loc) :
  mapM as_module vs = Some cs → vs = VModule <$> cs.
Proof.
  intros H. symmetry. apply (mapM_fmap_Some_inv as_module VModule _ _ H).
  intros [] y; simpl; congruence.
Qed.

Lemma children_Some (h : mheap) l cs :
  children h l = Some cs →
  ∃ d reg, h !! l = Some d ∧ registry "_modules" d = Some reg ∧
           dict_values reg = VModule <$> cs.
Proof.
  unfold children. intros H.
  destruct (h !! l) as [d|] eqn:Hd; simpl in H; [|done].
  destruct (registry "_modules" d) as [reg|] eqn:Hr; simpl in H; [|done].
  exists d, reg. eauto using mapM_as_module.
Qed.

Lemma lookup_mark b (h : mheap) l a :
  mark b h l !! a
  = if decide (l = a) then dict_set "training" (VBool b) <$> h !! a else h !! a.
Proof.
  unfold mark. rewrite lookup_alter. by destruct (decide (l = a)) as [->|].
Qed.

Lemma mark_all_cons b (h : mheap) l ls :
  mark_all b h (l :: ls) = mark_all b (mark b h l) ls.
Proof. reflexivity. Qed.

Lemma mark_all_app b (h : mheap) ls1 ls2 :
  mark_all b h (ls1 ++ ls2) = mark_all b (mark_all b h ls1) ls2.
Proof. apply foldl_app. Qed.

(** The state after a walk depends only on which nodes were visited. *)
Lemma lookup_mark_all b (h : mheap) ls a :
  mark_all b h ls !! a
  = if decide (a ∈ ls) then dict_set "training" (VBool b) <$> h !! a else h !! a.
Proof.
  revert h. induction ls as [|l ls IH]; intros h.
  - by rewrite decide_False by apply not_elem_of_nil.
  - rewrite mark_all_cons, IH, lookup_mark.
    destruct (decide (l = a)) as [->|Hne].
    + rewrite (decide_True (P := a ∈ a :: ls)) by left.
      destruct (h !! a) as [d|]; simpl; [|by destruct (decide (a ∈ ls))].
      destruct (decide (a ∈ ls)); simpl; [|done]. by rewrite dict_set_set.
    + destruct (decide (a ∈ ls)) as [Hin|Hnin].
      * by rewrite decide_True by (by right).
      * rewrite decide_False; [done|]. by intros [->|?]%elem_of_cons.
Qed.

Lemma mark_all_same_nodes b (h : mheap) ls1 ls2 :
  (∀ a, a ∈ ls1 ↔ a ∈ ls2) → mark_all b h ls1 = mark_all b h ls2.
Proof.
  intros Heq. apply map_eq. intros a. rewrite !lookup_mark_all.
  destruct (decide (a ∈ ls1)) as [H1|H1], (decide (a ∈ ls2)) as [H2|H2];
    try done.
  - destruct H2. by apply Heq.
  - destruct H1. by apply Heq.
Qed.

Lemma children_mark_all b (h : mheap) ls a :
  children (mark_all b h ls) a = children h a.
Proof.
  unfold children. rewrite lookup_mark_all.
  destruct (decide (a ∈ ls)); [|done].
  destruct (h !! a) as [d|]; simpl; [|done].
  by rewrite registry_set_ne.
Qed.

Lemma children_mark b (h : mheap) l a :
  children (mark b h l) a = children h a.
Proof. apply (children_mark_all b h [l]). Qed.

Lemma unfolds_ext (h h' : mheap) t :
  (∀ a, children h' a = children h a) → unfolds h t → unfolds h' t.
Proof.
  intros Hc. induction t as [l kids IH] using tree_ind'.
  inversion 1 as [l' kids' Hch Hk]; subst. constructor; [by rewrite Hc|].
  rewrite Forall_forall in IH, Hk |- *. eauto.
Qed.

Lemma unfolds_mark_all b (h : mheap) ls t :
  unfolds h t → unfolds (mark_all b h ls) t.
Proof. apply unfolds_ext. intros a. apply children_mark_all. Qed.

(** Writing flags leaves every unfolding in place. *)
Ltac unfolds_marked :=
  apply unfolds_ext; intros ?; by rewrite ?children_mark_all, ?children_mark.

(** The nodes of the unfolding are the Modules reachable from its root. *)
Lemma reachable_nodes (h : mheap) t a :
  unfolds h t → (reachable h (root t) a ↔ a ∈ nodes t).
Proof.
  intros Ht. split.
  - intros Hr. remember (root t) as x eqn:Hx. revert t Ht Hx.
    induction Hr as [x|x y a [cs [Hcs Hy]] Hr IH]; intros t Ht ->.
    + apply root_in_nodes.
    + destruct Ht as [l kids Hch Hk]. simpl in Hcs.
      assert (cs = root <$> kids) as -> by congruence.
      apply list_elem_of_fmap in Hy as [k [-> Hin]].
      rewrite nodes_Node. right. apply list_elem_of_bind. exists k. split; [|done].
      rewrite Forall_forall in Hk. by apply IH; [apply Hk|].
  - revert a Ht. induction t as [l kids IH] using tree_ind'.
    intros a Ht. inversion Ht as [l' kids' Hch Hk]; subst.
    rewrite nodes_Node. intros [->|Hin]%elem_of_cons; [apply rtc_refl|].
    apply list_elem_of_bind in Hin as [k [Ha Hin]].
    rewrite Forall_forall in IH, Hk.
    eapply rtc_l; [|by apply (IH k Hin a); [apply Hk|]].
    exists (root <$> kids). split; [done|]. by apply list_elem_of_fmap_2.
Qed.

(** ** Visiting one node *)

(** [node.training = b] on a Module is the per-node update [mark]. *)
Lemma setattr_training b (h : mheap) l d :
  h !! l = Some d →
  setattr h (VModule l) "training" (VBool b) = Ok (mark b h l).
Proof.
  intros Hd. unfold setattr, mark. rewrite Hd. simpl.
  by rewrite alter_alt, Hd.
Qed.

(** [node._modules.values()] after the flag of [l] was written. *)
Lemma getattr_modules_mark b (h : mheap) l a cs :
  children h a = Some cs →
  getattr (mark b h l) (VModule a) "_modules" ≫= values = Ok (VModule <$> cs).
Proof.
  intros Hc. rewrite <-(children_mark b h l) in Hc.
  apply children_Some in Hc as (d & reg & Hd & Hr & Hv).
  unfold getattr, Module__getattribute__. rewrite Hd.
  apply registry_Some in Hr. rewrite Hr. simpl. by rewrite Hv.
Qed.

(** The three statements both walks run on a node: write the flag,
    read [_modules], take its values.  On a well-formed Module they give
    the updated heap and the children, and the walk goes on. *)
Lemma visit_node {B} b (h : mheap) l cs (k : mheap → list pyval → outcome B) :
  children h l = Some cs →
  (h' ← setattr h (VModule l) "training" (VBool b);
   ms ← getattr h' (VModule l) "_modules";
   vs ← values ms;
   k h' vs)
  = k (mark b h l) (VModule <$> cs).
Proof.
  intros Hcs. destruct (children_Some _ _ _ Hcs) as (d & _ & Hd & _).
  rewrite (setattr_training _ _ _ _ Hd). cbn [mbind outcome_bind].
  pose proof (getattr_modules_mark b h l l cs Hcs) as Hg.
  destruct (getattr (mark b h l) (VModule l) "_modules") as [ms| | |];
    try discriminate Hg.
  cbn [mbind outcome_bind] in Hg |- *. by rewrite Hg.
Qed.

Lemma train_for_level (h : mheap) ls fut :
  Forall (λ l, is_Some (children h l)) ls →
  train_for h (VModule <$> ls) fut
  = Ok (mark_all true h ls, fut ++ (VModule <$> (ls ≫= kids_of h))).
Proof.
  revert h fut. induction ls as [|l ls IH]; intros h fut Hall.
  - simpl. by rewrite app_nil_r.
  - apply Forall_cons in Hall as [[cs Hcs] Hall].
    rewrite fmap_cons. cbn [train_for].
    erewrite visit_node by done.
    rewrite IH.
    + rewrite mark_all_cons. f_equal. f_equal. rewrite <-app_assoc. f_equal.
      rewrite bind_cons, fmap_app. f_equal.
      * unfold kids_of. by rewrite Hcs.
      * f_equal. apply list_bind_ext; [|done]. intros a.
        unfold kids_of. by rewrite children_mark.
    + eapply Forall_impl; [done|]. intros a. simpl. by rewrite children_mark.
Qed.

(** ** Walking a forest *)

Lemma unfolds_children (h : mheap) t :
  unfolds h t → children h (root t) = Some (root <$> subtrees t).
Proof. by intros []. Qed.

Lemma unfolds_subtrees (h : mheap) t :
  unfolds h t → Forall (unfolds h) (subtrees t).
Proof. by intros []. Qed.

Lemma roots_have_children (h : mheap) ts :
  Forall (unfolds h) ts → Forall (λ l, is_Some (children h l)) (root <$> ts).
Proof.
  intros H. apply Forall_fmap. eapply Forall_impl; [done|].
  intros t Ht. simpl. rewrite (unfolds_children _ _ Ht). eauto.
Qed.

Lemma kids_of_roots (h : mheap) ts :
  Forall (unfolds h) ts →
  (root <$> ts) ≫= kids_of h = root <$> (ts ≫= subtrees).
Proof.
  induction 1 as [|t ts Ht _ IH]; [done|].
  rewrite fmap_cons, !bind_cons, fmap_app, IH. f_equal.
  unfold kids_of. by rewrite (unfolds_children _ _ Ht).
Qed.

Lemma forest_nodes_levels ts a :
  a ∈ ts ≫= nodes ↔ a ∈ (root <$> ts) ++ ((ts ≫= subtrees) ≫= nodes).
Proof.
  induction ts as [|[l kids] ts IH].
  - done.
  - rewrite fmap_cons, !bind_cons, nodes_Node, bind_app. simpl.
    rewrite !elem_of_cons, !elem_of_app, IH, elem_of_app. tauto.
Qed.

Lemma forest_next_level n ts :
  Forall (λ t, height t ≤ S n) ts →
  Forall (λ t, height t ≤ n) (ts ≫= subtrees).
Proof.
  induction 1 as [|[l kids] ts Ht _ IH]; [constructor|].
  rewrite bind_cons. apply Forall_app. split; [|done].
  by apply (height_kids l).
Qed.

(** The level-by-level walk of [train] over a forest of bounded height. *)
Lemma train_while_forest n : ∀ (h : mheap) ts fuel,
  Forall (unfolds h) ts →
  Forall (λ t, height t ≤ n) ts →
  n ≤ fuel →
  train_while fuel h (VModule <$> (root <$> ts))
  = Ok (mark_all true h (ts ≫= nodes)).
Proof.
  induction n as [|n IH]; intros h ts fuel Hu Hh Hfuel.
  - destruct ts as [|t ts]; [by destruct fuel|].
    apply Forall_cons in Hh as [Hh _]. pose proof (height_pos t). lia.
  - destruct ts as [|t ts]; [by destruct fuel|].
    destruct fuel as [|fuel]; [lia|].
    rewrite !fmap_cons. cbn [train_while]. rewrite <-!fmap_cons.
    rewrite train_for_level by by apply roots_have_children.
    cbn [mbind outcome_bind fst snd app].
    rewrite kids_of_roots by done.
    rewrite IH.
    + rewrite <-mark_all_app. f_equal. apply mark_all_same_nodes.
      intros a. symmetry. apply forest_nodes_levels.
    + apply Forall_bind. eapply Forall_impl; [exact Hu|]. intros t' Ht'. simpl.
      eapply Forall_impl; [by apply unfolds_subtrees|].
      intros k. unfolds_marked.
    + by apply forest_next_level.
    + lia.
Qed.

(** The queue walk of [eval] over a forest with at most [n] nodes. *)
Lemma eval_while_forest n : ∀ (h : mheap) ts,
  Forall (unfolds h) ts →
  length (ts ≫= nodes) ≤ n →
  eval_while n h (VModule <$> (root <$> ts))
  = Ok (mark_all false h (ts ≫= nodes)).
Proof.
  induction n as [|n IH]; intros h ts Hu Hn.
  - destruct ts as [|[l kids] ts]; [done|]. rewrite bind_cons in Hn. simpl in Hn. lia.
  - destruct ts as [|t ts]; [done|].
    apply Forall_cons in Hu as [Ht Hu].
    pose proof (unfolds_children _ _ Ht) as Hc.
    rewrite !fmap_cons. cbn [eval_while].
    erewrite visit_node by done.
    rewrite <-!fmap_app. rewrite IH.
    + rewrite <-mark_all_cons. f_equal. apply mark_all_same_nodes. intros a.
      destruct t as [l kids]. cbn [root subtrees].
      rewrite forest_nodes_cons, bind_app.
      rewrite !elem_of_cons, !elem_of_app. tauto.
    + apply Forall_app. split.
      * eapply Forall_impl; [exact Hu|]. intros k. unfolds_marked.
      * eapply Forall_impl; [by apply unfolds_subtrees|].
        intros k. unfolds_marked.
    + destruct t as [l kids]. cbn [root subtrees].
      rewrite forest_nodes_cons in Hn. rewrite bind_app.
      rewrite length_cons, length_app in Hn. rewrite length_app. lia.
Qed.

(** More fuel does not change a result. *)
Lemma eval_while_mono n : ∀ m (h : mheap) que r,
  eval_while n h que = Ok r → n ≤ m → eval_while m h que = Ok r.
Proof.
  induction n as [|n IH]; intros m h que r Hr Hle.
  - destruct que; [|done]. by destruct m.
  - destruct m as [|m]; [lia|]. destruct que as [|node que]; [done|].
    cbn [eval_while] in *.
    destruct (setattr h node "training" (VBool false)) as [h1| | |]; try done.
    cbn [mbind outcome_bind] in *.
    destruct (getattr h1 node "_modules") as [ms| | |]; try done.
    cbn [mbind outcome_bind] in *.
    destruct (values ms) as [vs| | |]; try done.
    cbn [mbind outcome_bind] in *. apply IH; [done|lia].
Qed.

(** [train] and [eval] on an unfolding: every node of the tree gets the
    per-node update, nothing else happens. *)
Lemma train_unfolds (h : mheap) t fuel :
  unfolds h t → height t ≤ fuel →
  Module_train fuel h (root t) = Ok (mark_all true h (nodes t)).
Proof.
  intros Ht Hfuel. pose proof (unfolds_children _ _ Ht) as Hc.
  unfold Module_train.
  erewrite visit_node by done.
  destruct t as [l kids]. cbn [root subtrees] in *.
  rewrite (train_while_forest fuel).
  - by rewrite nodes_Node, mark_all_cons.
  - eapply Forall_impl; [by apply (unfolds_subtrees _ _ Ht)|].
    intros k. unfolds_marked.
  - apply (height_kids l). lia.
  - lia.
Qed.

Lemma eval_unfolds (h : mheap) t fuel :
  unfolds h t → length (nodes t) ≤ fuel →
  Module_eval fuel h (root t) = Ok (mark_all false h (nodes t)).
Proof.
  intros Ht Hfuel. pose proof (unfolds_children _ _ Ht) as Hc.
  unfold Module_eval.
  erewrite visit_node by done.
  destruct t as [l kids]. cbn [root subtrees] in *.
  apply (eval_while_mono (length (kids ≫= nodes)));
    [|rewrite nodes_Node, length_cons in Hfuel; lia].
  rewrite eval_while_forest.
  - by rewrite nodes_Node, mark_all_cons.
  - eapply Forall_impl; [by apply (unfolds_subtrees _ _ Ht)|].
    intros k. unfolds_marked.
  - done.
Qed.

Lemma nodes_in_heap (h : mheap) t a :
  unfolds h t → a ∈ nodes t → is_Some (h !! a).
Proof.
  revert a. induction t as [l kids IH] using tree_ind'.
  intros a Ht. inversion Ht as [l' kids' Hch Hk]; subst.
  rewrite nodes_Node. intros [->|Hin]%elem_of_cons.
  - apply children_Some in Hch as (d & _ & Hd & _). eauto.
  - apply list_elem_of_bind in Hin as [k [Ha Hin]].
    rewrite Forall_forall in IH, Hk. eauto.
Qed.

Lemma training_mark_all b (h : mheap) ls a :
  a ∈ ls → is_Some (h !! a) → training (mark_all b h ls) a = Some (VBool b).
Proof.
  intros Hin [d Hd]. unfold training.
  rewrite lookup_mark_all, decide_True, Hd by done. simpl.
  apply dict_get_set_eq.
Qed.

(** What a walk leaves alone. *)
Lemma mark_all_frame b (h : mheap) ls a d :
  h !! a = Some d →
  ∃ d', mark_all b h ls !! a = Some d' ∧
        (∀ k, k ≠ "training" → dict_get k d' = dict_get k d) ∧
        (a ∉ ls → d' = d).
Proof.
  intros Hd. rewrite lookup_mark_all, Hd.
  destruct (decide (a ∈ ls)); simpl.
  - eexists. split; [done|]. split; [|done].
    intros k Hk. by apply dict_get_set_ne.
  - eauto.
Qed.

Lemma mark_all_overwrite b b' (h : mheap) ls :
  mark_all b (mark_all b' h ls) ls = mark_all b h ls.
Proof.
  apply map_eq. intros a. rewrite !lookup_mark_all.
  destruct (decide (a ∈ ls)); [|done].
  destruct (h !! a); simpl; [|done]. by rewrite dict_set_set.
Qed.

(** ** Mode propagation on trees *)

(** C1.  On a tree-shaped graph, whatever the flags were, [train]
    returns, and afterwards every Module reachable from [m], [m]
    included, has [training == True]; [eval] returns and leaves
    [training == False] on every such Module. *)
Theorem train_eval_set_whole_subtree (h : mheap) (m : loc) :
  tree_shaped h m →
  ∃ n, ∀ fuel, n ≤ fuel →
    (∃ h', Module_train fuel h m = Ok h' ∧
           ∀ a, reachable h m a → training h' a = Some (VBool true)) ∧
    (∃ h', Module_eval fuel h m = Ok h' ∧
           ∀ a, reachable h m a → training h' a = Some (VBool false)).
Proof.
  intros (t & <- & Ht & _). exists (height t `max` length (nodes t)).
  intros fuel Hfuel. split.
  - eexists. split; [apply train_unfolds; [done|lia]|].
    intros a Ha%reachable_nodes; [|done].
    apply training_mark_all; [done|]. by eapply nodes_in_heap.
  - eexists. split; [apply eval_unfolds; [done|lia]|].
    intros a Ha%reachable_nodes; [|done].
    apply training_mark_all; [done|]. by eapply nodes_in_heap.
Qed.

(** C5.  A second [train] changes nothing, and the state [train]
    leaves is the one any walk leaves that applies the per-node update to
    exactly the Modules of the subtree, in whatever order. *)
Theorem train_idempotent (h : mheap) (m : loc) :
  tree_shaped h m →
  ∃ n, ∀ fuel, n ≤ fuel →
    ∃ h', Module_train fuel h m = Ok h' ∧
          Module_train fuel h' m = Ok h' ∧
          ∀ order, (∀ a, a ∈ order ↔ reachable h m a) →
                   mark_all true h order = h'.
Proof.
  intros (t & <- & Ht & _). exists (height t). intros fuel Hfuel.
  eexists. split; [by apply train_unfolds|]. split.
  - rewrite train_unfolds; [|by apply unfolds_mark_all|done].
    by rewrite mark_all_overwrite.
  - intros order Horder. apply mark_all_same_nodes. intros a.
    rewrite Horder. by apply reachable_nodes.
Qed.

(** C8.  The level walk of [train] and the queue walk of [eval] write
    the flag of exactly the Modules reachable from [m]: every other
    Module is untouched by both, and [eval] after [train] gives the state
    of [eval] alone. *)
Theorem train_eval_same_traversal (h : mheap) (m : loc) :
  tree_shaped h m →
  ∃ n, ∀ fuel, n ≤ fuel →
    ∃ ht he,
      Module_train fuel h m = Ok ht ∧
      Module_eval fuel h m = Ok he ∧
      (∀ a, reachable h m a →
            ht !! a = dict_set "training" (VBool true) <$> h !! a ∧
            he !! a = dict_set "training" (VBool false) <$> h !! a) ∧
      (∀ a, ¬ reachable h m a → ht !! a = h !! a ∧ he !! a = h !! a) ∧
      Module_eval fuel ht m = Ok he.
Proof.
  intros (t & <- & Ht & _). exists (height t `max` length (nodes t)).
  intros fuel Hfuel. eexists _, _.
  split; [apply train_unfolds; [done|lia]|].
  split; [apply eval_unfolds; [done|lia]|].
  split; [|split].
  - intros a Ha%reachable_nodes; [|done].
    by rewrite !lookup_mark_all, !decide_True.
  - intros a Ha. rewrite reachable_nodes in Ha by done.
    by rewrite !lookup_mark_all, !decide_False.
  - rewrite eval_unfolds; [|by apply unfolds_mark_all|lia].
    by rewrite mark_all_overwrite.
Qed.

(** C9.  [train] and [eval] create and delete no Module and change no
    attribute other than [training]; in particular [_modules] and
    [_parameters] keep their keys, values and order.  A Module that is
    not reachable from [m] is not changed at all. *)
Theorem train_eval_frame (h : mheap) (m : loc) :
  tree_shaped h m →
  ∃ n, ∀ fuel, n ≤ fuel →
    ∃ ht he,
      Module_train fuel h m = Ok ht ∧
      Module_eval fuel h m = Ok he ∧
      (∀ a, h !! a = None → ht !! a = None ∧ he !! a = None) ∧
      ∀ a d, h !! a = Some d →
        ∃ dt de,
          ht !! a = Some dt ∧ he !! a = Some de ∧
          dict_get "_modules" dt = dict_get "_modules" d ∧
          dict_get "_parameters" dt = dict_get "_parameters" d ∧
          dict_get "_modules" de = dict_get "_modules" d ∧
          dict_get "_parameters" de = dict_get "_parameters" d ∧
          (∀ k, k ≠ "training" →
                dict_get k dt = dict_get k d ∧ dict_get k de = dict_get k d) ∧
          (¬ reachable h m a → dt = d ∧ de = d).
Proof.
  intros (t & <- & Ht & _). exists (height t `max` length (nodes t)).
  intros fuel Hfuel. eexists _, _.
  split; [apply train_unfolds; [done|lia]|].
  split; [apply eval_unfolds; [done|lia]|].
  split.
  - intros a Ha. rewrite !lookup_mark_all, Ha.
    by destruct (decide (a ∈ nodes t)).
  - intros a d Hd.
    destruct (mark_all_frame true h (nodes t) a d Hd) as (dt & Hdt & Kt & Ft).
    destruct (mark_all_frame false h (nodes t) a d Hd) as (de & Hde & Ke & Fe).
    exists dt, de. repeat split; try done; try (by apply Kt); try (by apply Ke).
    + apply Ft. by rewrite <-reachable_nodes.
    + apply Fe. by rewrite <-reachable_nodes.
Qed.

(** ** Cycles *)

Lemma reaches_cycle_child (h : mheap) x :
  reaches_cycle h x → ∃ c, edge h x c ∧ reaches_cycle h c.
Proof.
  intros (a & Hr & Hc). destruct (rtc_inv _ _ Hr) as [->|(y & Hxy & Hya)].
  - inversion Hc as [? ? He|? y ? He Hy]; subst.
    + exists a. split; [done|]. exists a. by split.
    + exists y. split; [done|]. exists a. split; [by apply tc_rtc|done].
  - exists y. split; [done|]. by exists a.
Qed.

Lemma closed_from_child (h : mheap) x c :
  closed_from h x → edge h x c → closed_from h c.
Proof. intros Hx He a Ha. apply Hx. by eapply rtc_l. Qed.

Lemma closed_from_children (h : mheap) x :
  closed_from h x → is_Some (children h x).
Proof. intros Hx. apply Hx, rtc_refl. Qed.

Lemma edge_kids_of (h : mheap) x c : edge h x c ↔ c ∈ kids_of h x.
Proof.
  unfold edge, kids_of. split.
  - intros (cs & -> & Hc). done.
  - destruct (children h x) as [cs|]; simpl; [eauto|]. by intros ?%elem_of_nil.
Qed.

Lemma kids_of_singleton (h : mheap) x : [x] ≫= kids_of h = kids_of h x.
Proof. apply (app_nil_r (kids_of h x)). Qed.

Lemma kids_of_same (h h' : mheap) x :
  (∀ a, children h' a = children h a) → kids_of h' x = kids_of h x.
Proof. intros Hc. unfold kids_of. by rewrite Hc. Qed.

(** One level further down, the walk still holds a Module that reaches
    a cycle. *)
Lemma next_level_reaches_cycle (h : mheap) ls :
  Forall (closed_from h) ls → Exists (reaches_cycle h) ls →
  Forall (closed_from h) (ls ≫= kids_of h) ∧
  Exists (reaches_cycle h) (ls ≫= kids_of h).
Proof.
  intros Hcl Hex. split.
  - apply Forall_bind. eapply Forall_impl; [done|]. intros x Hx. simpl.
    apply Forall_forall. intros c Hc%edge_kids_of. by eapply closed_from_child.
  - apply Exists_exists in Hex as (x & Hin & Hx).
    apply reaches_cycle_child in Hx as (c & He & Hc).
    apply Exists_exists. exists c. split; [|done].
    apply list_elem_of_bind. exists x. split; [|done]. by apply edge_kids_of.
Qed.

Lemma train_while_diverges (h0 : mheap) fuel : ∀ (h : mheap) ls,
  (∀ a, children h a = children h0 a) →
  Forall (closed_from h0) ls → Exists (reaches_cycle h0) ls →
  train_while fuel h (VModule <$> ls) = OutOfFuel.
Proof.
  induction fuel as [|fuel IH]; intros h ls Hsame Hcl Hex.
  - destruct ls; [by apply Exists_nil in Hex|done].
  - destruct ls as [|l ls]; [by apply Exists_nil in Hex|].
    rewrite fmap_cons. cbn [train_while]. rewrite <-fmap_cons.
    rewrite train_for_level.
    + cbn [mbind outcome_bind fst snd app].
      destruct (next_level_reaches_cycle h0 (l :: ls)) as [Hcl' Hex']; [done..|].
      apply IH.
      * intros a. by rewrite children_mark_all.
      * erewrite list_bind_ext; [done| |done]. intros a. by apply kids_of_same.
      * erewrite list_bind_ext; [done| |done]. intros a. by apply kids_of_same.
    + eapply Forall_impl; [done|]. intros a Ha. simpl. rewrite Hsame.
      by apply closed_from_children.
Qed.

Lemma eval_while_diverges (h0 : mheap) fuel : ∀ (h : mheap) que,
  (∀ a, children h a = children h0 a) →
  Forall (closed_from h0) que → Exists (reaches_cycle h0) que →
  eval_while fuel h (VModule <$> que) = OutOfFuel.
Proof.
  induction fuel as [|fuel IH]; intros h que Hsame Hcl Hex.
  - destruct que; [by apply Exists_nil in Hex|done].
  - destruct que as [|l que]; [by apply Exists_nil in Hex|].
    apply Forall_cons in Hcl as [Hl Hcl].
    destruct (closed_from_children _ _ Hl) as [cs Hcs].
    rewrite <-Hsame in Hcs.
    rewrite fmap_cons. cbn [eval_while].
    erewrite visit_node by done.
    rewrite <-fmap_app.
    assert (Hk : kids_of h0 l = cs).
    { rewrite <-(kids_of_same h0 h) by done. unfold kids_of. by rewrite Hcs. }
    apply IH.
    + intros a. by rewrite children_mark.
    + apply Forall_app. split; [done|].
      apply Forall_forall. intros c Hc. apply (closed_from_child h0 l); [done|].
      apply edge_kids_of. by rewrite Hk.
    + apply Exists_app. apply Exists_cons in Hex as [Hx|Hx]; [right|by left].
      apply reaches_cycle_child in Hx as (c & He & Hc).
      apply Exists_exists. exists c. split; [|done].
      rewrite <-Hk. by apply edge_kids_of.
Qed.

(** When a cycle is reachable, no amount of fuel lets [train] or [eval]
    return. *)
Lemma train_diverges (h : mheap) m fuel :
  closed_from h m → reaches_cycle h m → Module_train fuel h m = OutOfFuel.
Proof.
  intros Hcl Hcyc. destruct (closed_from_children _ _ Hcl) as [cs Hcs].
  unfold Module_train.
  erewrite visit_node by done.
  destruct (next_level_reaches_cycle h [m]) as [Hcl' Hex'];
    [by constructor|by constructor|].
  rewrite kids_of_singleton in Hcl', Hex'.
  assert (kids_of h m = cs) as <- by (unfold kids_of; by rewrite Hcs).
  apply (train_while_diverges h); [|done..].
  intros a. by rewrite children_mark.
Qed.

Lemma eval_diverges (h : mheap) m fuel :
  closed_from h m → reaches_cycle h m → Module_eval fuel h m = OutOfFuel.
Proof.
  intros Hcl Hcyc. destruct (closed_from_children _ _ Hcl) as [cs Hcs].
  unfold Module_eval.
  erewrite visit_node by done.
  destruct (next_level_reaches_cycle h [m]) as [Hcl' Hex'];
    [by constructor|by constructor|].
  rewrite kids_of_singleton in Hcl', Hex'.
  assert (kids_of h m = cs) as <- by (unfold kids_of; by rewrite Hcs).
  apply (eval_while_diverges h); [|done..].
  intros a. by rewrite children_mark.
Qed.

(** An unfolding only contains well-formed Modules. *)
Lemma acyclic_closed_from (h : mheap) m : acyclic h m → closed_from h m.
Proof.
  intros (t & <- & Ht) a Ha%reachable_nodes; [|done].
  revert a Ha. induction t as [l kids IH] using tree_ind'.
  inversion Ht as [l' kids' Hch Hk]; subst.
  intros a. rewrite nodes_Node. intros [->|Hin]%elem_of_cons; [eauto|].
  apply list_elem_of_bind in Hin as [k [Ha Hin]].
  rewrite Forall_forall in IH, Hk. eauto.
Qed.

(** C7.  In a graph made of Modules: when the part reachable from [m]
    is acyclic, [train] and [eval] return once they are given enough
    fuel; when a cycle is reachable from [m], they return for no amount
    of fuel, and they raise nothing. *)
Theorem traversal_terminates_unless_cycle (h : mheap) (m : loc) :
  closed_from h m →
  (acyclic h m →
   ∃ n, ∀ fuel, n ≤ fuel →
     (∃ h', Module_train fuel h m = Ok h') ∧
     (∃ h', Module_eval fuel h m = Ok h')) ∧
  (reaches_cycle h m →
   ∀ fuel, Module_train fuel h m = OutOfFuel ∧
           Module_eval fuel h m = OutOfFuel).
Proof.
  intros Hcl. split.
  - intros (t & <- & Ht). exists (height t `max` length (nodes t)).
    intros fuel Hfuel. split; eexists.
    + apply train_unfolds; [done|lia].
    + apply eval_unfolds; [done|lia].
  - intros Hcyc fuel. split; [by apply train_diverges|by apply eval_diverges].
Qed.

(** ** The Parameter cell *)

Lemma track_plain (vs : gmap loc tracked) p n : track vs (WPlain p) n = Ok vs.
Proof. reflexivity. Qed.





(** ** Well-typed registries *)





Lemma Forall_dict_set (P : pyval → Prop) (d : dict) k v :
  P v → Forall P (dict_values d) → Forall P (dict_values (dict_set k v d)).
Proof.
  intros Hv Hd. apply Forall_forall.
  intros x [->|Hx]%dict_values_set_elem; [done|].
  rewrite Forall_forall in Hd. by apply Hd.
Qed.



















(** ** The scenarios of the specification *)

Lemma scenario_heap :
  scenario !! 0 = Some [("_modules", VDict [("branch1", VModule 1); ("branch2", VModule 2)]);
                        ("_parameters", VDict []); ("training", VBool true)] ∧
  scenario !! 1 = Some [("_modules", VDict [("leaf1", VModule 3); ("leaf2", VModule 4)]);
                        ("_parameters", VDict []); ("training", VBool false)] ∧
  scenario !! 3 = Some [("_modules", VDict []);
                        ("_parameters", VDict []); ("training", VBool false)].
Proof. by vm_compute. Qed.

Lemma scenario_tree_shaped : tree_shaped scenario 0.
Proof.
  exists scenario_tree. split; [reflexivity|]. split.
  - repeat (constructor; try (vm_compute; reflexivity)).
  - apply (bool_decide_unpack _). by vm_compute.
Qed.

(** Scenario B: the flags that were [False] are [True] after
    [root.train()], like all the others. *)
Example scenario_B_train :
  ∃ h', Module_train 2 scenario 0 = Ok h' ∧
        Forall (λ l, training h' l = Some (VBool true)) [0; 1; 2; 3; 4; 5; 6].
Proof. eexists. split; [by vm_compute|]. repeat constructor. Qed.

(** One level of fuel is not enough for a tree of depth two. *)
Example scenario_B_short_fuel : Module_train 1 scenario 0 = OutOfFuel.
Proof. by vm_compute. Qed.

(** Scenario E: [eval] on a leaf writes that flag and returns. *)
Example scenario_E_eval :
  Module_eval 0 {[ 0 := fresh_module ]} 0
  = Ok {[ 0 := [("_modules", VDict []); ("_parameters", VDict []);
                ("training", VBool false)] ]}.
Proof. by vm_compute. Qed.

Example init_fresh_module : Module__init__ [] = Ok fresh_module.
Proof. reflexivity. Qed.

Example self_owner_loops :
  Module_train 100 self_owner 0 = OutOfFuel ∧
  Module_eval 100 self_owner 0 = OutOfFuel.
Proof. by vm_compute. Qed.

(** Scenario C, as far as the code goes: [add_parameter] registers the
    new Parameter under [w]; the enumeration is not there. *)
Example scenario_C_add_parameter :
  ∃ st p d,
    run empty_store [OpModule] ≫= (λ st, Module_add_parameter st 0 "w" (WPlain (PNum 5)))
    = Ok (st, p) ∧
    params st !! p = Some {| value := WPlain (PNum 5); name := Some "w" |} ∧
    modules st !! 0 = Some d ∧
    registry "_parameters" d = Some [("w", VParameter p)] ∧
    Module_parameters (modules st) 0 = Raise NotImplementedError.
Proof. eexists _, _, _. repeat split; by vm_compute. Qed.

(** ** The theorems at concrete inputs *)

Ltac scenario_is_tree :=
  exists scenario_tree; split; [reflexivity|]; split;
  [ repeat (constructor; try (vm_compute; reflexivity))
  | apply (bool_decide_unpack _); vm_compute; exact I ].

Lemma train_eval_set_whole_subtree_witness :
  tree_shaped scenario 0 ∧
  ∃ n, ∀ fuel, n ≤ fuel →
    (∃ h', Module_train fuel scenario 0 = Ok h' ∧
           ∀ a, reachable scenario 0 a → training h' a = Some (VBool true)) ∧
    (∃ h', Module_eval fuel scenario 0 = Ok h' ∧
           ∀ a, reachable scenario 0 a → training h' a = Some (VBool false)).
Proof.
  assert (H : tree_shaped scenario 0) by scenario_is_tree.
  split; [exact H|]. exact (train_eval_set_whole_subtree scenario 0 H).
Defined.

Lemma train_idempotent_witness :
  tree_shaped scenario 0 ∧
  ∃ n, ∀ fuel, n ≤ fuel →
    ∃ h', Module_train fuel scenario 0 = Ok h' ∧
          Module_train fuel h' 0 = Ok h' ∧
          ∀ order, (∀ a, a ∈ order ↔ reachable scenario 0 a) →
                   mark_all true scenario order = h'.
Proof.
  assert (H : tree_shaped scenario 0) by scenario_is_tree.
  split; [exact H|]. exact (train_idempotent scenario 0 H).
Defined.

Lemma train_eval_same_traversal_witness :
  tree_shaped scenario 0 ∧
  ∃ n, ∀ fuel, n ≤ fuel →
    ∃ ht he,
      Module_train fuel scenario 0 = Ok ht ∧
      Module_eval fuel scenario 0 = Ok he ∧
      (∀ a, reachable scenario 0 a →
            ht !! a = dict_set "training" (VBool true) <$> scenario !! a ∧
            he !! a = dict_set "training" (VBool false) <$> scenario !! a) ∧
      (∀ a, ¬ reachable scenario 0 a →
            ht !! a = scenario !! a ∧ he !! a = scenario !! a) ∧
      Module_eval fuel ht 0 = Ok he.
Proof.
  assert (H : tree_shaped scenario 0) by scenario_is_tree.
  split; [exact H|]. exact (train_eval_same_traversal scenario 0 H).
Defined.

Lemma train_eval_frame_witness :
  tree_shaped scenario 0 ∧
  ∃ n, ∀ fuel, n ≤ fuel →
    ∃ ht he,
      Module_train fuel scenario 0 = Ok ht ∧
      Module_eval fuel scenario 0 = Ok he ∧
      (∀ a, scenario !! a = None → ht !! a = None ∧ he !! a = None) ∧
      ∀ a d, scenario !! a = Some d →
        ∃ dt de,
          ht !! a = Some dt ∧ he !! a = Some de ∧
          dict_get "_modules" dt = dict_get "_modules" d ∧
          dict_get "_parameters" dt = dict_get "_parameters" d ∧
          dict_get "_modules" de = dict_get "_modules" d ∧
          dict_get "_parameters" de = dict_get "_parameters" d ∧
          (∀ k, k ≠ "training" →
                dict_get k dt = dict_get k d ∧ dict_get k de = dict_get k d) ∧
          (¬ reachable scenario 0 a → dt = d ∧ de = d).
Proof.
  assert (H : tree_shaped scenario 0) by scenario_is_tree.
  split; [exact H|]. exact (train_eval_frame scenario 0 H).
Defined.


Lemma getattr_registry_lookup_witness :
  registry "_parameters" small_module = Some [("w", VParameter 0)] ∧
  registry "_modules" small_module = Some [("child", VModule 1)] ∧
  Module__getattr__ small_module "w" = Ok (VParameter 0) ∧
  Module__getattr__ small_module "child" = Ok (VModule 1) ∧
  Module__getattr__ small_module "forward" = Ok VNone.
Proof.
  split; [reflexivity|]. split; [reflexivity|].
  split; [|split].
  - exact (getattr_registry_lookup small_module _ _ "w" eq_refl eq_refl).
  - exact (getattr_registry_lookup small_module _ _ "child" eq_refl eq_refl).
  - exact (getattr_registry_lookup small_module _ _ "forward" eq_refl eq_refl).
Defined.




Lemma traversal_terminates_unless_cycle_witness :
  (closed_from scenario 0 ∧ acyclic scenario 0 ∧
   ∃ n, ∀ fuel, n ≤ fuel →
     (∃ h', Module_train fuel scenario 0 = Ok h') ∧
     (∃ h', Module_eval fuel scenario 0 = Ok h')) ∧
  (closed_from self_owner 0 ∧ reaches_cycle self_owner 0 ∧
   ∀ fuel, Module_train fuel self_owner 0 = OutOfFuel ∧
           Module_eval fuel self_owner 0 = OutOfFuel).
Proof.
  split.
  - assert (Ha : acyclic scenario 0).
    { exists scenario_tree. split; [reflexivity|].
      repeat (constructor; try (vm_compute; reflexivity)). }
    assert (Hc : closed_from scenario 0) by exact (acyclic_closed_from _ _ Ha).
    split; [exact Hc|]. split; [exact Ha|].
    exact (proj1 (traversal_terminates_unless_cycle scenario 0 Hc) Ha).
  - assert (Hc : closed_from self_owner 0).
    { intros a Hr. assert (a = 0) as ->; [|eexists; vm_compute; reflexivity].
      revert a Hr. apply (rtc_ind_r (λ a, a = 0) 0); [reflexivity|].
      intros y z _ (cs & Hcs & Hz) ->. vm_compute in Hcs. injection Hcs as <-.
      apply list_elem_of_singleton in Hz. exact Hz. }
    assert (Hy : reaches_cycle self_owner 0).
    { exists 0. split; [apply rtc_refl|]. apply tc_once.
      exists [0]. split; [vm_compute; reflexivity|left]. }
    split; [exact Hc|]. split; [exact Hy|].
    exact (proj2 (traversal_terminates_unless_cycle self_owner 0 Hc) Hy).
Defined.

(** * Further properties of module.py *)

(** ** Construction and registration *)

(** X1.  [__init__] never raises, whatever the instance holds: it
    leaves both registries empty and [training] true, and keeps every
    other attribute.  Running it again on a Module drops its children
    and Parameters. *)
Theorem init_resets_registries (d : dict) :
  ∃ d', Module__init__ d = Ok d' ∧
        registry "_modules" d' = Some [] ∧
        registry "_parameters" d' = Some [] ∧
        dict_get "training" d' = Some (VBool true) ∧
        ∀ k, k ≠ "_modules" → k ≠ "_parameters" → k ≠ "training" →
             dict_get k d' = dict_get k d.
Proof.
  eexists. split.
  { unfold Module__init__. rewrite setattr_other by done.
    cbn [mbind outcome_bind]. rewrite setattr_other by done.
    cbn [mbind outcome_bind]. by rewrite setattr_other. }
  split; [|split; [|split]].
  - rewrite !registry_set_ne by done. apply registry_set_eq.
  - rewrite registry_set_ne by done. apply registry_set_eq.
  - apply dict_get_set_eq.
  - intros k H1 H2 H3. by rewrite !dict_get_set_ne.
Qed.

Lemma dict_values_set_fresh {A} (d : list (string * A)) k v :
  dict_get k d = None → dict_set k v d = d ++ [(k, v)].
Proof.
  induction d as [|[k0 v0] d IH]; simpl; [done|].
  destruct (decide (k = k0)); [done|]. intros Hd. by rewrite IH.
Qed.

Lemma dict_set_present {A} (d1 d2 : list (string * A)) k old v :
  dict_get k d1 = None →
  dict_set k v (d1 ++ (k, old) :: d2) = d1 ++ (k, v) :: d2.
Proof.
  induction d1 as [|[k0 v0] d1 IH]; simpl.
  - by rewrite decide_True.
  - destruct (decide (k = k0)); [done|]. intros Hd. by rewrite IH.
Qed.

(** X2.  [modules()] lists the children in registration order: a child
    assigned under a new name comes last, a child assigned under a name
    in use takes the place of the one it replaces. *)
Theorem modules_registration_order (h : mheap) (self : loc) (d ms : dict)
    (k : string) (c : loc) :
  h !! self = Some d →
  registry "_modules" d = Some ms →
  Module_modules h self = Ok (dict_values ms) ∧
  ∃ h', setattr h (VModule self) k (VModule c) = Ok h' ∧
    (dict_get k ms = None →
     Module_modules h' self = Ok (dict_values ms ++ [VModule c])) ∧
    (∀ d1 old d2, ms = d1 ++ (k, old) :: d2 → dict_get k d1 = None →
     Module_modules h' self
     = Ok (dict_values d1 ++ VModule c :: dict_values d2)).
Proof.
  intros Hd Hms. split.
  { unfold Module_modules. rewrite Hd.
    by rewrite (subscript_registry _ _ _ Hms). }
  eexists. split.
  { unfold setattr. rewrite Hd, (setattr_Module _ _ _ _ Hms). reflexivity. }
  assert (Hm : ∀ ms', Module_modules
                 (<[self := dict_set "_modules" (VDict ms') d]> h) self
               = Ok (dict_values ms')).
  { intros ms'. unfold Module_modules. rewrite lookup_insert_eq.
    unfold subscript. by rewrite dict_get_set_eq. }
  split.
  - intros Hk. rewrite Hm, dict_values_set_fresh by done.
    unfold dict_values. by rewrite fmap_app.
  - intros d1 old d2 -> Hk. rewrite Hm, dict_set_present by done.
    unfold dict_values. by rewrite !fmap_app.
Qed.

(** X3.  A Parameter assigned to a name is what the registry lookup
    gives back for that name, also when a child is registered under the
    same name. *)
Theorem getattr_after_setattr_Parameter (d ps : dict) (k : string) (p : loc) :
  registry "_parameters" d = Some ps →
  ∃ d', Module__setattr__ d k (VParameter p) = Ok d' ∧
        Module__getattr__ d' k = Ok (VParameter p).
Proof.
  intros Hps. eexists. split; [by apply setattr_Parameter|].
  unfold Module__getattr__, subscript. rewrite dict_get_set_eq. simpl.
  rewrite dict_get_set_eq.
  rewrite bool_decide_eq_true_2 by eauto. unfold subscript.
  by rewrite dict_get_set_eq.
Qed.

(** X4.  A child assigned to a name is what the registry lookup gives
    back only when no Parameter has that name: [_parameters] is searched
    first, so a Parameter hides the child of the same name. *)
Theorem getattr_after_setattr_Module (d ps ms : dict) (k : string) (c : loc) :
  registry "_parameters" d = Some ps →
  registry "_modules" d = Some ms →
  ∃ d', Module__setattr__ d k (VModule c) = Ok d' ∧
        Module__getattr__ d' k
        = Ok (match dict_get k ps with
              | Some p => p
              | None => VModule c
              end).
Proof.
  intros Hps Hms. eexists. split; [by apply setattr_Module|].
  rewrite (getattr_registry_lookup_aux _ ps (dict_set k (VModule c) ms)).
  - by rewrite dict_get_set_eq.
  - by rewrite registry_set_ne.
  - apply registry_set_eq.
Qed.

Lemma getattribute_instance (d : dict) k v :
  dict_get k d = Some v → Module__getattribute__ d k = Ok v.
Proof. intros Hk. unfold Module__getattribute__. by rewrite Hk. Qed.



(** ** add_parameter *)




(** X8.  The two ways of registering agree: [self.add_parameter(k, v)]
    does what [p = Parameter(v, k); self.k = p] does, failures
    included. *)
Theorem add_parameter_as_assignment (st : store) (self : loc) (k : string)
    (v : wrapped) :
  Module_add_parameter st self k v
  = (r ← Parameter_new st v (Some k);
     st' ← Module_assign r.1 self k (VParameter r.2);
     Ok (st', r.2)).
Proof.
  unfold Module_add_parameter, Parameter_new, Module_assign, setattr.
  destruct (Parameter__init__ st (fresh (dom (params st))) v (Some k))
    as [st1| | |]; try done.
  cbn [mbind outcome_bind fst snd].
  destruct (modules st1 !! self) as [d|]; [|done].
  unfold Module__setattr__. cbn [is_Parameter].
  destruct (subscript d "_parameters") as [reg| | |]; try done.
  cbn [mbind outcome_bind].
  by destruct (setitem reg k (VParameter (fresh (dom (params st))))).
Qed.

(** ** More on mode propagation *)

(** X9.  Sharing is allowed: when the graph below [m] has no cycle,
    even if a Module is owned by several parents, [train] and [eval]
    return, set the flag of every Module reachable from [m], and leave
    every other Module as it was. *)
Theorem train_eval_shared_submodules (h : mheap) (m : loc) :
  acyclic h m →
  ∃ n, ∀ fuel, n ≤ fuel →
    ∃ ht he,
      Module_train fuel h m = Ok ht ∧
      Module_eval fuel h m = Ok he ∧
      (∀ a, reachable h m a →
            training ht a = Some (VBool true) ∧
            training he a = Some (VBool false)) ∧
      (∀ a, ¬ reachable h m a → ht !! a = h !! a ∧ he !! a = h !! a).
Proof.
  intros (t & <- & Ht). exists (height t `max` length (nodes t)).
  intros fuel Hfuel. eexists _, _.
  split; [apply train_unfolds; [done|lia]|].
  split; [apply eval_unfolds; [done|lia]|].
  split.
  - intros a Ha%reachable_nodes; [|done].
    split; (apply training_mark_all; [done|by eapply nodes_in_heap]).
  - intros a Ha. rewrite reachable_nodes in Ha by done.
    by rewrite !lookup_mark_all, !decide_False.
Qed.

Lemma children_leaf (h : mheap) m d :
  h !! m = Some d → registry "_modules" d = Some [] → children h m = Some [].
Proof. intros Hd Hms. unfold children. by rewrite Hd; simpl; rewrite Hms. Qed.

Lemma mark_insert b (h : mheap) m d :
  h !! m = Some d → mark b h m = <[m := dict_set "training" (VBool b) d]> h.
Proof. intros Hd. unfold mark. by rewrite alter_alt, Hd. Qed.

(** X10.  On a Module without children both calls do the local
    assignment and nothing else; the loop body never runs, so this needs
    no fuel. *)
Theorem train_eval_leaf (h : mheap) (m : loc) (d : dict) (fuel : nat) :
  h !! m = Some d →
  registry "_modules" d = Some [] →
  Module_train fuel h m = Ok (<[m := dict_set "training" (VBool true) d]> h) ∧
  Module_eval fuel h m = Ok (<[m := dict_set "training" (VBool false) d]> h).
Proof.
  intros Hd Hms. pose proof (children_leaf _ _ _ Hd Hms) as Hc.
  unfold Module_train, Module_eval.
  erewrite !visit_node by done. rewrite !(mark_insert _ _ _ _ Hd).
  by destruct fuel.
Qed.

(** X11.  A registry that does not hold what it should makes both calls
    raise AttributeError: when [_modules] itself was replaced by plain
    data, at [self._modules.values()]; when its first value is plain
    data, at [node.training = ...]. *)
Theorem train_eval_broken_registry (h : mheap) (m : loc) (d : dict) (fuel : nat) :
  h !! m = Some d →
  (∀ p, dict_get "_modules" d = Some (VPlain p) →
        Module_train fuel h m = Raise AttributeError ∧
        Module_eval fuel h m = Raise AttributeError) ∧
  (∀ ms p rest,
        registry "_modules" d = Some ms →
        dict_values ms = VPlain p :: rest →
        Module_train (S fuel) h m = Raise AttributeError ∧
        Module_eval (S fuel) h m = Raise AttributeError).
Proof.
  intros Hd.
  assert (Hget : ∀ b v, dict_get "_modules" d = Some v →
    getattr (mark b h m) (VModule m) "_modules" = Ok v).
  { intros b v Hv. unfold getattr. rewrite lookup_mark, decide_True, Hd by done.
    simpl. apply getattribute_instance. by rewrite dict_get_set_ne. }
  split.
  - intros p Hp. unfold Module_train, Module_eval.
    rewrite !(setattr_training _ _ _ _ Hd). cbn [mbind outcome_bind].
    by rewrite !(Hget _ _ Hp).
  - intros ms p rest Hms%registry_Some Hvs. unfold Module_train, Module_eval.
    rewrite !(setattr_training _ _ _ _ Hd). cbn [mbind outcome_bind].
    rewrite !(Hget _ _ Hms). cbn [mbind outcome_bind values]. by rewrite Hvs.
Qed.

(** ** Where Parameters and Modules are stored *)

Lemma when_ok_bind {A B} (P : A → Prop) (Q : B → Prop) (m : outcome A)
    (f : A → outcome B) :
  when_ok P m → (∀ a, P a → when_ok Q (f a)) → when_ok Q (m ≫= f).
Proof. destruct m; simpl; eauto. Qed.

Lemma when_ok_True {A} (m : outcome A) : when_ok (λ _, True) m.
Proof. by destruct m. Qed.















(** ** Text: [split], [join] and [_addindent] *)

Lemma split_lines_not_nil s : split_lines s ≠ [].
Proof.
  destruct s as [|c s]; simpl; [done|].
  destruct (decide (c = LF)); [done|]. by destruct (split_lines s).
Qed.

Lemma split_lines_String c s first rest :
  c ≠ LF → split_lines s = first :: rest →
  split_lines (String c s) = String c first :: rest.
Proof. intros Hc Hs. simpl. by rewrite decide_False, Hs. Qed.

Lemma split_lines_one_line s : Forall one_line (split_lines s).
Proof.
  induction s as [|c s IH]; simpl.
  - by repeat constructor.
  - destruct (decide (c = LF)); [by constructor|].
    destruct (split_lines s) as [|first rest]; [by repeat constructor|].
    apply Forall_cons in IH as [H1 H2]. by repeat constructor.
Qed.

Lemma join_cons sep x y l :
  join sep (x :: y :: l) = x +:+ sep +:+ join sep (y :: l).
Proof. reflexivity. Qed.

(** Joining what [split] gave restores the text. *)
Lemma join_split_lines s : join newline (split_lines s) = s.
Proof.
  induction s as [|c s IH]; [done|]. cbn [split_lines].
  destruct (decide (c = LF)) as [->|Hc].
  - destruct (split_lines s) as [|y l] eqn:Hs; [by apply split_lines_not_nil in Hs|].
    rewrite join_cons, IH. reflexivity.
  - destruct (split_lines s) as [|first [|y l]] eqn:Hs.
    + by apply split_lines_not_nil in Hs.
    + simpl in *. by rewrite IH.
    + rewrite <-IH, !join_cons. reflexivity.
Qed.

Lemma split_lines_single a : one_line a → split_lines a = [a].
Proof.
  induction a as [|c a IH]; simpl; [done|]. intros [Hc Ha].
  by rewrite decide_False, IH.
Qed.

Lemma split_lines_app a b :
  one_line a → split_lines (a +:+ String LF b) = a :: split_lines b.
Proof.
  induction a as [|c a IH].
  - intros _. change (split_lines (String LF b) = "" :: split_lines b).
    cbn [split_lines]. by rewrite decide_True.
  - intros [Hc Ha].
    change (split_lines (String c (a +:+ String LF b))
            = String c a :: split_lines b).
    by apply split_lines_String, IH.
Qed.

(** Splitting what [join] made restores the lines. *)
Lemma split_lines_join l :
  l ≠ [] → Forall one_line l → split_lines (join newline l) = l.
Proof.
  induction l as [|x [|y l] IH]; intros Hne Hl; [done| |].
  - apply Forall_cons in Hl as [Hx _]. by apply split_lines_single.
  - apply Forall_cons in Hl as [Hx Hl]. rewrite join_cons.
    change (newline +:+ join newline (y :: l))
      with (String LF (join newline (y :: l))).
    rewrite split_lines_app by done. by rewrite IH.
Qed.

Lemma one_line_app a b : one_line a → one_line b → one_line (a +:+ b).
Proof. induction a as [|c a IH]; simpl; [done|]. intros [? ?] ?. auto. Qed.

Lemma one_line_spaces n : one_line (spaces n).
Proof. induction n as [|n IH]; simpl; [done|]. split; [done|apply IH]. Qed.

Lemma addindent_split_lines (s : string) (numSpaces : nat) :
  ∃ first rest,
    split_lines s = first :: rest ∧
    split_lines (_addindent s numSpaces)
    = first :: ((λ line, spaces numSpaces +:+ line) <$> rest).
Proof.
  destruct (split_lines s) as [|first rest] eqn:Hs;
    [by apply split_lines_not_nil in Hs|].
  exists first, rest. split; [done|].
  pose proof (split_lines_one_line s) as Hl. rewrite Hs in Hl.
  apply Forall_cons in Hl as [Hfirst Hrest].
  unfold _addindent. rewrite Hs. destruct rest as [|y rest].
  - by rewrite decide_True.
  - rewrite decide_False by done.
    change (newline +:+ ?x) with (String LF x).
    rewrite split_lines_app by done. f_equal.
    apply split_lines_join; [done|].
    apply Forall_fmap. eapply Forall_impl; [done|].
    intros line Hline. simpl. apply one_line_app; [apply one_line_spaces|done].
Qed.

(** X13.  [_addindent] keeps the lines of the text and their number:
    the first line is unchanged and every later line gets [numSpaces]
    spaces in front. *)
Theorem addindent_lines (s : string) (numSpaces : nat) :
  ∃ first rest,
    split_lines s = first :: rest ∧
    split_lines (_addindent s numSpaces)
    = first :: ((λ line, spaces numSpaces +:+ line) <$> rest).
Proof.
  destruct (split_lines s) as [|first rest] eqn:Hs;
    [by apply split_lines_not_nil in Hs|].
  exists first, rest. split; [done|].
  pose proof (split_lines_one_line s) as Hl. rewrite Hs in Hl.
  apply Forall_cons in Hl as [Hfirst Hrest].
  unfold _addindent. rewrite Hs. destruct rest as [|y rest].
  - by rewrite decide_True.
  - rewrite decide_False by done.
    change (newline +:+ ?x) with (String LF x).
    rewrite split_lines_app by done. f_equal.
    apply split_lines_join; [done|].
    apply Forall_fmap. eapply Forall_impl; [done|].
    intros line Hline. simpl. apply one_line_app; [apply one_line_spaces|done].
Qed.

(** X14.  [_addindent] returns the text itself when it has a single
    line, and when the indentation is zero. *)
Theorem addindent_identity (s : string) (numSpaces : nat) :
  one_line s ∨ numSpaces = 0 → _addindent s numSpaces = s.
Proof.
  intros [Hs| ->]; unfold _addindent.
  - by rewrite split_lines_single.
  - destruct (decide (length (split_lines s) = 1)); [done|].
    destruct (split_lines s) as [|first [|y rest]] eqn:Hs; [done|done|].
    transitivity (join newline (split_lines s)); [|apply join_split_lines].
    rewrite Hs, join_cons. do 3 f_equal.
    clear. induction (y :: rest) as [|z l IH]; [done|].
    rewrite fmap_cons, IH. reflexivity.
Qed.

(** ** The textual representation *)

Lemma getattr_set_other (d : dict) k v key :
  k ≠ "_parameters" → k ≠ "_modules" →
  Module__getattr__ (dict_set k v d) key = Module__getattr__ d key.
Proof.
  intros Hp Hm. unfold Module__getattr__, subscript.
  by rewrite !dict_get_set_ne.
Qed.

Lemma getattribute_set_other (d : dict) k v key :
  k ≠ "_parameters" → k ≠ "_modules" → k ≠ key →
  Module__getattribute__ (dict_set k v d) key = Module__getattribute__ d key.
Proof.
  intros Hp Hm Hk. unfold Module__getattribute__.
  by rewrite dict_get_set_ne, getattr_set_other.
Qed.

Lemma same_modules_refl (h : mheap) : same_modules h h.
Proof. done. Qed.

Lemma same_modules_trans (h1 h2 h3 : mheap) :
  same_modules h1 h2 → same_modules h2 h3 → same_modules h1 h3.
Proof. intros H12 H23 l. by rewrite H12. Qed.

Lemma same_modules_insert (h : mheap) l d d' :
  h !! l = Some d →
  Module__getattribute__ d' "_modules" = Module__getattribute__ d "_modules" →
  same_modules h (<[l := d']> h).
Proof.
  intros Hd Heq a. rewrite lookup_insert.
  destruct (decide (l = a)) as [<-|]; [|done]. rewrite Hd. simpl. by rewrite Heq.
Qed.

Lemma same_modules_setattr_training b (h : mheap) node :
  when_ok (same_modules h) (setattr h node "training" (VBool b)).
Proof.
  destruct node as [| |l|]; try done. unfold setattr.
  destruct (h !! l) as [d|] eqn:Hd; [|done]. rewrite setattr_other by done.
  simpl. eapply same_modules_insert; [done|]. by apply getattribute_set_other.
Qed.

Lemma same_modules_train_for (h0 h : mheap) nodes fut :
  same_modules h0 h →
  when_ok (λ r, same_modules h0 r.1) (train_for h nodes fut).
Proof.
  revert h fut. induction nodes as [|node nodes IH]; intros h fut Hh; [done|].
  cbn [train_for].
  eapply when_ok_bind; [apply same_modules_setattr_training|].
  intros h' Hh'. destruct (getattr h' node "_modules") as [ms| | |]; try done.
  cbn [mbind outcome_bind]. destruct (values ms) as [vs| | |]; try done.
  apply IH. by eapply same_modules_trans.
Qed.

Lemma same_modules_train_while fuel (h0 : mheap) : ∀ (h : mheap) nodes,
  same_modules h0 h → when_ok (same_modules h0) (train_while fuel h nodes).
Proof.
  induction fuel as [|fuel IH]; intros h nodes Hh.
  - by destruct nodes.
  - destruct nodes as [|node nodes]; [done|]. cbn [train_while].
    eapply when_ok_bind; [by apply same_modules_train_for|].
    intros [h' fut] Hh'. by apply IH.
Qed.

Lemma same_modules_eval_while fuel (h0 : mheap) : ∀ (h : mheap) que,
  same_modules h0 h → when_ok (same_modules h0) (eval_while fuel h que).
Proof.
  induction fuel as [|fuel IH]; intros h que Hh.
  - by destruct que.
  - destruct que as [|node que]; [done|]. cbn [eval_while].
    eapply when_ok_bind; [apply same_modules_setattr_training|].
    intros h' Hh'. destruct (getattr h' node "_modules") as [ms| | |]; try done.
    cbn [mbind outcome_bind]. destruct (values ms) as [vs| | |]; try done.
    apply IH. by eapply same_modules_trans.
Qed.

Lemma same_modules_train fuel (h : mheap) self :
  when_ok (same_modules h) (Module_train fuel h self).
Proof.
  unfold Module_train.
  eapply when_ok_bind; [apply same_modules_setattr_training|].
  intros h' Hh'. destruct (getattr h' (VModule self) "_modules") as [ms| | |];
    try done.
  cbn [mbind outcome_bind]. destruct (values ms) as [vs| | |]; try done.
  by apply same_modules_train_while.
Qed.

Lemma same_modules_eval fuel (h : mheap) self :
  when_ok (same_modules h) (Module_eval fuel h self).
Proof.
  unfold Module_eval.
  eapply when_ok_bind; [apply same_modules_setattr_training|].
  intros h' Hh'. destruct (getattr h' (VModule self) "_modules") as [ms| | |];
    try done.
  cbn [mbind outcome_bind]. destruct (values ms) as [vs| | |]; try done.
  by apply same_modules_eval_while.
Qed.

Section repr_facts.
Context (repr_other : pyval → outcome string).

Lemma repr_for_ext (f g : loc → outcome string) its acc :
  (∀ l, f l = g l) →
  repr_for repr_other f its acc = repr_for repr_other g its acc.
Proof.
  intros Hfg. revert acc. induction its as [|[key v] its IH]; intros acc; [done|].
  cbn [repr_for]. destruct v as [| |l|]; try rewrite Hfg;
    match goal with |- ?m ≫= _ = _ => destruct m end; try done;
    cbn [mbind outcome_bind]; apply IH.
Qed.

(** The text is a function of the [_modules] of the Modules. *)
Lemma repr_same_modules depth : ∀ (h h' : mheap) m,
  same_modules h h' →
  Module__repr__ repr_other depth h m = Module__repr__ repr_other depth h' m.
Proof.
  induction depth as [|depth IH]; intros h h' m Hsame; [done|].
  cbn [Module__repr__]. pose proof (Hsame m) as Hm.
  destruct (h !! m) as [d|], (h' !! m) as [d'|]; try done.
  simpl in Hm. injection Hm as ->.
  destruct (Module__getattribute__ d' "_modules") as [ms| | |]; try done.
  cbn [mbind outcome_bind]. destruct (items ms) as [its| | |]; try done.
  cbn [mbind outcome_bind].
  by rewrite (repr_for_ext _ (Module__repr__ repr_other depth h') _ _
                (λ l, IH h h' l Hsame)).
Qed.

(** A Module without children is written [Module()], whatever
    Parameters it owns. *)
Theorem repr_leaf (h : mheap) (m : loc) (d : dict) (depth : nat) :
  h !! m = Some d →
  registry "_modules" d = Some [] →
  Module__repr__ repr_other (S depth) h m = Ok "Module()".
Proof.
  intros Hd Hms%registry_Some. cbn [Module__repr__]. rewrite Hd.
  by rewrite (getattribute_instance _ _ _ Hms).
Qed.

(** X15.  [train] and [eval] do not change the text of any Module, on
    any heap on which they return. *)
Theorem repr_unchanged_by_train_eval (fuel : nat) (h h' : mheap) (m : loc) :
  Module_train fuel h m = Ok h' ∨ Module_eval fuel h m = Ok h' →
  ∀ depth x,
    Module__repr__ repr_other depth h' x = Module__repr__ repr_other depth h x.
Proof.
  intros Hrun depth x. symmetry. apply repr_same_modules.
  destruct Hrun as [Hrun|Hrun].
  - pose proof (same_modules_train fuel h m) as H. by rewrite Hrun in H.
  - pose proof (same_modules_eval fuel h m) as H. by rewrite Hrun in H.
Qed.


End repr_facts.

Lemma getattribute_modules_children (h : mheap) m cs :
  children h m = Some cs →
  ∃ d reg, h !! m = Some d ∧
           Module__getattribute__ d "_modules" = Ok (VDict reg) ∧
           reg.*2 = VModule <$> cs.
Proof.
  intros (d & reg & Hd & Hr%registry_Some & Hv)%children_Some.
  exists d, reg. eauto using getattribute_instance.
Qed.

Lemma item_of_children (reg : dict) (cs : list loc) it :
  reg.*2 = VModule <$> cs → it ∈ reg → ∃ l, it.2 = VModule l ∧ l ∈ cs.
Proof.
  intros Hv Hin. assert (it.2 ∈ reg.*2) as Hx by by apply list_elem_of_fmap_2.
  rewrite Hv in Hx. apply list_elem_of_fmap in Hx as (l & ? & ?). eauto.
Qed.

Section repr_depth.
Context (repr_other : pyval → outcome string).

Lemma repr_for_all_ok (f : loc → outcome string) its : ∀ acc,
  Forall (λ it, ∃ l s, it.2 = VModule l ∧ f l = Ok s) its →
  ∃ lines, repr_for repr_other f its acc = Ok lines.
Proof.
  induction its as [|[key v] its IH]; intros acc Hall; [by eexists|].
  apply Forall_cons in Hall as [(l & s & Hv & Hs) Hall]. simpl in Hv. subst v.
  cbn [repr_for]. rewrite Hs. cbn [mbind outcome_bind]. by apply IH.
Qed.

Lemma repr_for_returns_or_overflows (f : loc → outcome string) its : ∀ acc,
  Forall (λ it, ∃ l, it.2 = VModule l ∧ returns_or_overflows (f l)) its →
  returns_or_overflows (repr_for repr_other f its acc).
Proof.
  induction its as [|[key v] its IH]; intros acc Hall; [done|].
  apply Forall_cons in Hall as [(l & Hv & Hl) Hall]. simpl in Hv. subst v.
  cbn [repr_for]. destruct (f l); try done. cbn [mbind outcome_bind]. by apply IH.
Qed.

Lemma repr_for_overflows (f : loc → outcome string) its : ∀ acc,
  Forall (λ it, ∃ l, it.2 = VModule l ∧ returns_or_overflows (f l)) its →
  Exists (λ it, ∃ l, it.2 = VModule l ∧ f l = OutOfFuel) its →
  repr_for repr_other f its acc = OutOfFuel.
Proof.
  induction its as [|[key v] its IH]; intros acc Hall Hex;
    [by apply Exists_nil in Hex|].
  apply Forall_cons in Hall as [(l & Hv & Hl) Hall]. simpl in Hv. subst v.
  cbn [repr_for]. apply Exists_cons in Hex as [(l' & Hv' & Hl')|Hex].
  - simpl in Hv'. injection Hv' as <-. by rewrite Hl'.
  - destruct (f l); try done. cbn [mbind outcome_bind]. by apply IH.
Qed.

Lemma repr_closed depth : ∀ (h : mheap) m,
  closed_from h m →
  returns_or_overflows (Module__repr__ repr_other depth h m).
Proof.
  induction depth as [|depth IH]; intros h m Hcl; [done|].
  destruct (closed_from_children _ _ Hcl) as [cs Hcs].
  destruct (getattribute_modules_children _ _ _ Hcs) as (d & reg & Hd & Hg & Hv).
  cbn [Module__repr__]. rewrite Hd, Hg. cbn [mbind outcome_bind items].
  pose proof (repr_for_returns_or_overflows
                (Module__repr__ repr_other depth h) reg []) as Hfor.
  destruct (repr_for repr_other (Module__repr__ repr_other depth h) reg [])
    as [lines| | |]; try done; apply Hfor; apply Forall_forall;
    intros it (l & Hit & Hl)%(item_of_children _ cs); try done;
    exists l; (split; [done|]); apply IH, (closed_from_child h m); try done;
    by exists cs.
Qed.

Lemma repr_unfolds depth : ∀ (h : mheap) t,
  unfolds h t → height t ≤ depth →
  ∃ s, Module__repr__ repr_other depth h (root t) = Ok s.
Proof.
  induction depth as [|depth IH]; intros h t Ht Hh.
  { pose proof (height_pos t). lia. }
  destruct t as [l kids]. inversion Ht as [l' kids' Hch Hk]; subst.
  destruct (getattribute_modules_children _ _ _ Hch) as (d & reg & Hd & Hg & Hv).
  cbn [Module__repr__ root]. rewrite Hd, Hg. cbn [mbind outcome_bind items].
  destruct (repr_for_all_ok (Module__repr__ repr_other depth h) reg [])
    as [lines Hlines].
  { apply Forall_forall. intros it (c & Hit & Hc)%(item_of_children _ (root <$> kids));
      [|done].
    apply list_elem_of_fmap in Hc as (k & -> & Hkin).
    rewrite Forall_forall in Hk.
    destruct (IH h k) as [s Hs]; [by apply Hk| |by exists (root k), s].
    pose proof (height_kids l kids depth Hh) as Hkids.
    rewrite Forall_forall in Hkids. by apply Hkids. }
  rewrite Hlines. cbn [mbind outcome_bind]. by eexists.
Qed.

Lemma repr_cycle depth : ∀ (h : mheap) m,
  closed_from h m → reaches_cycle h m →
  Module__repr__ repr_other depth h m = OutOfFuel.
Proof.
  induction depth as [|depth IH]; intros h m Hcl Hcyc; [done|].
  destruct (closed_from_children _ _ Hcl) as [cs Hcs].
  destruct (getattribute_modules_children _ _ _ Hcs) as (d & reg & Hd & Hg & Hv).
  cbn [Module__repr__]. rewrite Hd, Hg. cbn [mbind outcome_bind items].
  rewrite repr_for_overflows; [done| |].
  - apply Forall_forall. intros it (l & Hit & Hl)%(item_of_children _ cs); [|done].
    exists l. split; [done|]. apply repr_closed, (closed_from_child h m); [done|].
    by exists cs.
  - apply reaches_cycle_child in Hcyc as (c & (cs' & Hcs' & Hc) & Hcc).
    assert (cs' = cs) as -> by congruence.
    assert (VModule c ∈ reg.*2) as Hin by (rewrite Hv; by apply list_elem_of_fmap_2).
    apply list_elem_of_fmap in Hin as (it & Hit & Hin).
    apply Exists_exists. exists it. split; [done|]. exists c. split; [done|].
    apply IH; [|done]. apply (closed_from_child h m); [done|]. by exists cs.
Qed.

(** X17.  In a graph made of Modules, [repr] returns a text when the
    part below [m] has no cycle and the interpreter allows a nesting as
    deep as the tree; when a cycle can be reached, it exceeds every
    depth. *)
Theorem repr_returns_unless_cycle (h : mheap) (m : loc) :
  closed_from h m →
  (acyclic h m →
   ∃ n, ∀ depth, n ≤ depth →
     ∃ s, Module__repr__ repr_other depth h m = Ok s) ∧
  (reaches_cycle h m →
   ∀ depth, Module__repr__ repr_other depth h m = OutOfFuel).
Proof.
  intros Hcl. split.
  - intros (t & <- & Ht). exists (height t). intros depth Hd.
    by apply repr_unfolds.
  - intros Hcyc depth. by apply repr_cycle.
Qed.

End repr_depth.

(** ** Calling a Module *)

(** X18.  Calling a Module for which [forward] names neither an
    instance attribute, nor a Parameter, nor a child raises TypeError:
    the lookup answers [None], and [None] is called. *)
Theorem call_without_forward (h : mheap) (m : loc) (d ps ms : dict) (depth : nat) :
  h !! m = Some d →
  dict_get "forward" d = None →
  registry "_parameters" d = Some ps →
  registry "_modules" d = Some ms →
  dict_get "forward" ps = None →
  dict_get "forward" ms = None →
  Module__call__ (S depth) h m = Raise TypeError.
Proof.
  intros Hd Hf Hps Hms Hfp Hfm. cbn [Module__call__]. rewrite Hd.
  unfold Module__getattribute__. rewrite Hf.
  rewrite (getattr_registry_lookup_aux _ _ _ _ Hps Hms), Hfp, Hfm. done.
Qed.

(** ** The shape of the text *)

Lemma length_split_lines s : length (split_lines s) = S (count_LF s).
Proof.
  induction s as [|c s IH]; [done|]. cbn [split_lines count_LF].
  destruct (decide (c = LF)); [simpl; by rewrite IH|].
  destruct (split_lines s) as [|line lines]; simpl in *; lia.
Qed.

Lemma count_LF_app a b : count_LF (a +:+ b) = count_LF a + count_LF b.
Proof.
  induction a as [|c a IH]; [done|].
  change (count_LF (String c (a +:+ b)) = count_LF (String c a) + count_LF b).
  cbn [count_LF]. rewrite IH. lia.
Qed.

Lemma count_LF_one_line s : one_line s → count_LF s = 0.
Proof.
  induction s as [|c s IH]; [done|]. intros [Hc Hs]. cbn [count_LF].
  by rewrite decide_False, IH.
Qed.

Lemma count_LF_addindent s n : count_LF (_addindent s n) = count_LF s.
Proof.
  destruct (addindent_split_lines s n) as (first & rest & Hs & Hi).
  pose proof (length_split_lines s) as H1.
  pose proof (length_split_lines (_addindent s n)) as H2.
  rewrite Hs in H1. rewrite Hi in H2. simpl in H1, H2.
  rewrite length_fmap in H2. lia.
Qed.

Lemma count_LF_join sep l :
  count_LF sep = 1 → l ≠ [] →
  S (count_LF (join sep l)) = sum_list ((λ x, S (count_LF x)) <$> l).
Proof.
  intros Hsep. induction l as [|x [|y l] IH]; intros Hne; [done| |].
  - simpl. lia.
  - specialize (IH ltac:(done)).
    rewrite join_cons, !count_LF_app, Hsep, fmap_cons.
    change (sum_list (?a :: ?b)) with (a + sum_list b).
    rewrite <-IH. lia.
Qed.

Lemma Forall2_of_fmap_eq {A B C} (f : A → C) (g : B → C) l : ∀ k,
  f <$> l = g <$> k → Forall2 (λ x y, f x = g y) l k.
Proof.
  induction l as [|x l IH]; intros [|y k] Heq; try done.
  rewrite !fmap_cons in Heq. injection Heq as Hxy Heq. constructor; eauto.
Qed.

Section repr_shape.
Context (repr_other : pyval → outcome string).

Lemma repr_for_lines (f : loc → outcome string) its kids :
  Forall2 (λ it k, it.2 = VModule (root k)) its kids →
  (∀ it, it ∈ its → one_line it.1) →
  (∀ k, k ∈ kids →
        ∃ s, f (root k) = Ok s ∧ S (count_LF s) = repr_line_count k) →
  ∀ acc, ∃ lines,
    repr_for repr_other f its acc = Ok (acc ++ lines) ∧
    length lines = length kids ∧
    sum_list ((λ x, S (count_LF x)) <$> lines)
    = foldr (λ k n, repr_line_count k + n) 0 kids.
Proof.
  induction 1 as [|[key v] k its kids Hv _ IH]; intros Hnames Hkids acc.
  - exists []. by rewrite app_nil_r.
  - simpl in Hv. subst v.
    destruct (Hkids k) as (s & Hs & Hcount); [by left|].
    destruct (IH (λ it Hit, Hnames it (list_elem_of_further _ _ _ Hit))
                 (λ k' Hk', Hkids k' (list_elem_of_further _ _ _ Hk'))
                 (acc ++ ["(" +:+ key +:+ "): " +:+ _addindent s 2]))
      as (lines & Hfor & Hlen & Hsum).
    exists (("(" +:+ key +:+ "): " +:+ _addindent s 2) :: lines).
    cbn [repr_for]. rewrite Hs. cbn [mbind outcome_bind].
    rewrite Hfor, <-app_assoc. split; [done|]. split; [simpl; by rewrite Hlen|].
    rewrite fmap_cons. cbn [sum_list sum_list_with foldr]. rewrite Hsum.
    rewrite !count_LF_app, count_LF_addindent.
    rewrite (count_LF_one_line key) by (by apply (Hnames (key, VModule (root k))); left).
    simpl. lia.
Qed.

Lemma repr_line_count_unfolds depth : ∀ (h : mheap) t,
  one_line_names h → unfolds h t → height t ≤ depth →
  ∃ s, Module__repr__ repr_other depth h (root t) = Ok s ∧
       S (count_LF s) = repr_line_count t.
Proof.
  induction depth as [|depth IH]; intros h t Hnames Ht Hh.
  { pose proof (height_pos t). lia. }
  destruct t as [l kids]. inversion Ht as [l' kids' Hch Hk]; subst.
  apply children_Some in Hch as (d & reg & Hd & Hr & Hv).
  cbn [Module__repr__ root]. rewrite Hd.
  rewrite (getattribute_instance _ _ (VDict reg)) by by apply registry_Some.
  cbn [mbind outcome_bind items].
  destruct (repr_for_lines (Module__repr__ repr_other depth h) reg kids)
    with (acc := @nil string) as (lines & Hfor & Hlen & Hsum).
  { apply (Forall2_of_fmap_eq snd (λ k, VModule (root k))).
    unfold dict_values in Hv. by rewrite Hv, <-list_fmap_compose. }
  { intros [k v] Hin. by apply (Hnames l d reg k v). }
  { intros k Hkin. rewrite Forall_forall in Hk. apply IH; [done|by apply Hk|].
    pose proof (height_kids l kids depth Hh) as Hkids.
    rewrite Forall_forall in Hkids. by apply Hkids. }
  rewrite Hfor. cbn [mbind outcome_bind app]. eexists. split; [done|].
  destruct lines as [|x lines]; destruct kids as [|k kids]; try done.
  cbn [repr_line_count]. rewrite <-Hsum.
  rewrite !count_LF_app, <-(count_LF_join (newline +:+ "  ")) by done.
  simpl. lia.
Qed.

(** X19.  The text of a tree of Modules whose children have one-line
    names takes one line for each Module without children, and for each
    other Module an opening line, the lines of its children and a
    closing line. *)
Theorem repr_number_of_lines (h : mheap) (t : tree) (depth : nat) :
  one_line_names h → unfolds h t → height t ≤ depth →
  ∃ s, Module__repr__ repr_other depth h (root t) = Ok s ∧
       length (split_lines s) = repr_line_count t.
Proof.
  intros Hnames Ht Hh.
  destruct (repr_line_count_unfolds depth h t Hnames Ht Hh) as (s & Hs & Hc).
  exists s. split; [done|]. by rewrite length_split_lines.
Qed.

End repr_shape.

(** ** The further properties at concrete inputs *)

Lemma modules_registration_order_witness :
  Module_modules small_heap 0 = Ok [VModule 1] ∧
  ∃ h', setattr small_heap (VModule 0) "other" (VModule 2) = Ok h' ∧
        Module_modules h' 0 = Ok [VModule 1; VModule 2].
Proof.
  assert (Hd : small_heap !! 0 = Some small_module) by (vm_compute; reflexivity).
  destruct (modules_registration_order small_heap 0 small_module
              [("child", VModule 1)] "other" 2 Hd eq_refl)
    as (Hm & h' & Hset & Hnew & _).
  split; [exact Hm|]. exists h'. split; [exact Hset|exact (Hnew eq_refl)].
Defined.

Lemma getattr_after_setattr_Parameter_witness :
  ∃ d', Module__setattr__ small_module "child" (VParameter 7) = Ok d' ∧
        Module__getattr__ d' "child" = Ok (VParameter 7).
Proof.
  exact (getattr_after_setattr_Parameter small_module [("w", VParameter 0)]
           "child" 7 eq_refl).
Defined.

Lemma getattr_after_setattr_Module_witness :
  ∃ d', Module__setattr__ small_module "w" (VModule 5) = Ok d' ∧
        Module__getattr__ d' "w" = Ok (VParameter 0).
Proof.
  exact (getattr_after_setattr_Module small_module [("w", VParameter 0)]
           [("child", VModule 1)] "w" 5 eq_refl eq_refl).
Defined.




Lemma train_eval_shared_submodules_witness :
  acyclic diamond 0 ∧
  ¬ NoDup (nodes diamond_tree) ∧
  ∃ n, ∀ fuel, n ≤ fuel →
    ∃ ht he,
      Module_train fuel diamond 0 = Ok ht ∧
      Module_eval fuel diamond 0 = Ok he ∧
      (∀ a, reachable diamond 0 a →
            training ht a = Some (VBool true) ∧
            training he a = Some (VBool false)) ∧
      (∀ a, ¬ reachable diamond 0 a →
            ht !! a = diamond !! a ∧ he !! a = diamond !! a).
Proof.
  assert (Ha : acyclic diamond 0).
  { exists diamond_tree. split; [reflexivity|].
    repeat (constructor; try (vm_compute; reflexivity)). }
  split; [exact Ha|]. split.
  { intros Hn. apply (bool_decide_pack _) in Hn. vm_compute in Hn. exact Hn. }
  exact (train_eval_shared_submodules diamond 0 Ha).
Defined.

Lemma train_eval_leaf_witness :
  Module_train 0 fresh_heap 0
  = Ok (<[0 := dict_set "training" (VBool true) fresh_module]> fresh_heap) ∧
  Module_eval 0 fresh_heap 0
  = Ok (<[0 := dict_set "training" (VBool false) fresh_module]> fresh_heap).
Proof.
  assert (Hd : fresh_heap !! 0 = Some fresh_module) by (vm_compute; reflexivity).
  exact (train_eval_leaf fresh_heap 0 fresh_module 0 Hd eq_refl).
Defined.

Lemma train_eval_broken_registry_witness :
  Module_train 3 broken_heap 0 = Raise AttributeError ∧
  Module_eval 3 broken_heap 0 = Raise AttributeError.
Proof.
  assert (Hd : broken_heap !! 0 = Some broken_module)
    by (vm_compute; reflexivity).
  exact (proj1 (train_eval_broken_registry broken_heap 0 broken_module 3 Hd)
           (PNum 5) eq_refl).
Defined.


Lemma addindent_identity_witness :
  _addindent "Module()" 2 = "Module()" ∧
  _addindent ("a" +:+ newline +:+ "b") 0 = "a" +:+ newline +:+ "b".
Proof.
  split.
  - apply addindent_identity. left. vm_compute. repeat split; discriminate.
  - apply addindent_identity. right. reflexivity.
Defined.

Lemma repr_leaf_witness :
  Module__repr__ no_repr 1 fresh_heap 0 = Ok "Module()".
Proof.
  assert (Hd : fresh_heap !! 0 = Some fresh_module) by (vm_compute; reflexivity).
  exact (repr_leaf no_repr fresh_heap 0 fresh_module 0 Hd eq_refl).
Defined.

Lemma repr_unchanged_by_train_eval_witness :
  ∃ h', Module_eval 7 scenario 0 = Ok h' ∧
        ∀ depth x, Module__repr__ no_repr depth h' x
                   = Module__repr__ no_repr depth scenario x.
Proof.
  assert (Hrun : ∃ h', Module_eval 7 scenario 0 = Ok h')
    by (eexists; vm_compute; reflexivity).
  destruct Hrun as [h' Hrun]. exists h'. split; [exact Hrun|].
  exact (repr_unchanged_by_train_eval no_repr 7 scenario h' 0 (or_intror Hrun)).
Defined.


Lemma repr_returns_unless_cycle_witness :
  (∃ n, ∀ depth, n ≤ depth →
     ∃ s, Module__repr__ no_repr depth scenario 0 = Ok s) ∧
  (∀ depth, Module__repr__ no_repr depth self_owner 0 = OutOfFuel).
Proof.
  split.
  - assert (Ha : acyclic scenario 0).
    { exists scenario_tree. split; [reflexivity|].
      repeat (constructor; try (vm_compute; reflexivity)). }
    assert (Hc : closed_from scenario 0) by exact (acyclic_closed_from _ _ Ha).
    exact (proj1 (repr_returns_unless_cycle no_repr scenario 0 Hc) Ha).
  - assert (Hc : closed_from self_owner 0).
    { intros a Hr. assert (a = 0) as ->; [|eexists; vm_compute; reflexivity].
      revert a Hr. apply (rtc_ind_r (λ a, a = 0) 0); [reflexivity|].
      intros y z _ (cs & Hcs & Hz) ->. vm_compute in Hcs. injection Hcs as <-.
      apply list_elem_of_singleton in Hz. exact Hz. }
    assert (Hy : reaches_cycle self_owner 0).
    { exists 0. split; [apply rtc_refl|]. apply tc_once.
      exists [0]. split; [vm_compute; reflexivity|left]. }
    exact (proj2 (repr_returns_unless_cycle no_repr self_owner 0 Hc) Hy).
Defined.

Lemma call_without_forward_witness :
  Module__call__ 1 small_heap 0 = Raise TypeError.
Proof.
  assert (Hd : small_heap !! 0 = Some small_module) by (vm_compute; reflexivity).
  exact (call_without_forward small_heap 0 small_module
           [("w", VParameter 0)] [("child", VModule 1)] 0
           Hd eq_refl eq_refl eq_refl eq_refl eq_refl).
Defined.

Lemma repr_number_of_lines_witness :
  ∃ s, Module__repr__ no_repr 2 pair_heap 0 = Ok s ∧
       length (split_lines s) = 3.
Proof.
  assert (Hnames : one_line_names pair_heap).
  { intros l d reg k v Hd Hreg Hin. unfold pair_heap in Hd.
    destruct (decide (l = 0)) as [->|H0].
    - rewrite lookup_insert_eq in Hd. injection Hd as <-.
      vm_compute in Hreg. injection Hreg as <-.
      apply list_elem_of_singleton in Hin. injection Hin as -> _.
      vm_compute. repeat split; discriminate.
    - rewrite lookup_insert_ne in Hd by (intros Heq; apply H0; symmetry; exact Heq).
      destruct (decide (l = 1)) as [->|H1].
      + rewrite lookup_singleton_eq in Hd. injection Hd as <-.
        vm_compute in Hreg. injection Hreg as <-.
        apply elem_of_nil in Hin. destruct Hin.
      + rewrite lookup_singleton_ne in Hd
          by (intros Heq; apply H1; symmetry; exact Heq).
        discriminate Hd. }
  assert (Ht : unfolds pair_heap (Node 0 [Node 1 []])).
  { repeat (constructor; try (vm_compute; reflexivity)). }
  assert (Hh : height (Node 0 [Node 1 []]) ≤ 2) by (vm_compute; lia).
  exact (repr_number_of_lines no_repr pair_heap (Node 0 [Node 1 []]) 2
           Hnames Ht Hh).
Defined.

(** The text of the tree of the test at the end of module.py. *)
Example scenario_repr :
  Module__repr__ no_repr 3 scenario 0
  = Ok (join newline
          ["Module(";
           "  (branch1): Module(";
           "    (leaf1): Module()";
           "    (leaf2): Module()";
           "  )";
           "  (branch2): Module(";
           "    (leaf3): Module()";
           "    (leaf4): Module()";
           "  )";
           ")"]).
Proof. by vm_compute. Qed.

(** ** Registering an ancestor *)

Lemma modules_of_values (vs : list pyval) :
  Forall (λ v, is_Module v = true) vs → ∃ cs, vs = VModule <$> cs.
Proof.
  induction 1 as [|v vs Hv _ [cs ->]]; [by exists []|].
  destruct v as [| |l|]; try done. by exists (l :: cs).
Qed.

Lemma children_intro (h : mheap) l d reg cs :
  h !! l = Some d → registry "_modules" d = Some reg →
  dict_values reg = VModule <$> cs → children h l = Some cs.
Proof.
  intros Hd Hr Hv. unfold children. rewrite Hd. simpl. rewrite Hr. simpl.
  rewrite Hv. by apply mapM_fmap_Some.
Qed.

Lemma children_insert_ne (h : mheap) l d a :
  l ≠ a → children (<[l := d]> h) a = children h a.
Proof. intros Hne. unfold children. by rewrite lookup_insert_ne. Qed.

(** The children of [m] after [m.k = c]: [c] is one of them, and the
    others were children before. *)
Lemma children_after_assignment (h : mheap) m d ms cs k c :
  h !! m = Some d → registry "_modules" d = Some ms →
  dict_values ms = VModule <$> cs →
  ∃ cs', children
           (<[m := dict_set "_modules" (VDict (dict_set k (VModule c) ms)) d]> h) m
         = Some cs' ∧
         c ∈ cs' ∧ ∀ z, z ∈ cs' → z = c ∨ z ∈ cs.
Proof.
  intros Hd Hms Hv.
  destruct (modules_of_values (dict_values (dict_set k (VModule c) ms)))
    as [cs' Hcs'].
  { apply Forall_dict_set; [done|]. rewrite Hv. apply Forall_fmap.
    by apply Forall_true. }
  exists cs'. split; [|split].
  - eapply children_intro; [apply lookup_insert_eq|apply registry_set_eq|done].
  - assert (VModule c ∈ VModule <$> cs') as Hin.
    { rewrite <-Hcs'. eapply dict_get_values, dict_get_set_eq. }
    apply list_elem_of_fmap in Hin as (z & [= ->] & Hz). done.
  - intros z Hz. assert (VModule z ∈ dict_values (dict_set k (VModule c) ms)) as Hin
      by (rewrite Hcs'; by apply list_elem_of_fmap_2).
    apply dict_values_set_elem in Hin as [[= ->]|Hin]; [by left|right].
    rewrite Hv in Hin. apply list_elem_of_fmap in Hin as (z' & [= ->] & Hz'). done.
Qed.

(** X20.  Nothing stops a cycle from being built: when [c] is [m] itself
    or an ancestor of [m] in a graph made of Modules, the assignment
    [m.k = c] succeeds, and from then on [train], [eval] and [repr] on
    [m] do not return; the first two loop, the third exceeds every
    recursion depth. *)
Theorem assigning_an_ancestor_makes_a_cycle (repr_other : pyval → outcome string)
    (h : mheap) (m c : loc) (k : string) :
  closed_from h c →
  reachable h c m →
  ∃ h', setattr h (VModule m) k (VModule c) = Ok h' ∧
        ∀ n, Module_train n h' m = OutOfFuel ∧
             Module_eval n h' m = OutOfFuel ∧
             Module__repr__ repr_other n h' m = OutOfFuel.
Proof.
  intros Hcl Hcm.
  destruct (Hcl m Hcm) as [cs Hcs].
  destruct (children_Some _ _ _ Hcs) as (d & ms & Hd & Hms & Hv).
  set (h' := <[m := dict_set "_modules" (VDict (dict_set k (VModule c) ms)) d]> h).
  destruct (children_after_assignment h m d ms cs k c Hd Hms Hv)
    as (cs' & Hcs' & Hc & Hold). fold h' in Hcs'.
  assert (Hother : ∀ a, a ≠ m → children h' a = children h a).
  { intros a Ha. by apply children_insert_ne. }
  exists h'. split.
  { unfold setattr. rewrite Hd, (setattr_Module _ _ _ _ Hms). reflexivity. }
  (* what m reaches afterwards, c reached before *)
  assert (Hreach : ∀ a, reachable h' m a → reachable h c a).
  { apply (rtc_ind_r (λ a, reachable h c a) m); [done|].
    intros y z _ (ys & Hys & Hz) Hy. destruct (decide (y = m)) as [->|Hne].
    - assert (ys = cs') as -> by congruence.
      destruct (Hold z Hz) as [->|Hz']; [apply rtc_refl|].
      eapply rtc_r; [exact Hcm|]. by exists cs.
    - rewrite Hother in Hys by done. eapply rtc_r; [exact Hy|]. by exists ys. }
  assert (Hcl' : closed_from h' m).
  { intros a Ha. destruct (decide (a = m)) as [->|Hne]; [by eexists|].
    rewrite Hother by done. by apply Hcl, Hreach. }
  (* the old path from c to m is still there, up to its first visit of m *)
  assert (Hback : reachable h' c m).
  { revert Hcm. apply (rtc_ind_l (λ x, reachable h' x m) m); [apply rtc_refl|].
    intros x y (xs & Hxs & Hy) _ IH.
    destruct (decide (x = m)) as [->|Hne]; [apply rtc_refl|].
    eapply rtc_l; [|exact IH]. exists xs. by rewrite Hother. }
  assert (Hcyc : reaches_cycle h' m).
  { exists m. split; [apply rtc_refl|].
    eapply tc_rtc_r; [apply tc_once; by exists cs'|done]. }
  intros n. split; [by apply train_diverges|].
  split; [by apply eval_diverges|by apply repr_cycle].
Qed.

Lemma assigning_an_ancestor_makes_a_cycle_witness :
  ∃ h', setattr scenario (VModule 3) "up" (VModule 0) = Ok h' ∧
        ∀ n, Module_train n h' 3 = OutOfFuel ∧
             Module_eval n h' 3 = OutOfFuel ∧
             Module__repr__ no_repr n h' 3 = OutOfFuel.
Proof.
  assert (Ha : acyclic scenario 0).
  { exists scenario_tree. split; [reflexivity|].
    repeat (constructor; try (vm_compute; reflexivity)). }
  assert (Hc : closed_from scenario 0) by exact (acyclic_closed_from _ _ Ha).
  assert (Hr : reachable scenario 0 3).
  { eapply rtc_l; [exists [1; 2]; split; [vm_compute; reflexivity|left]|].
    eapply rtc_l; [exists [3; 4]; split; [vm_compute; reflexivity|left]|].
    apply rtc_refl. }
  exact (assigning_an_ancestor_makes_a_cycle no_repr scenario 3 0 "up" Hc Hr).
Defined.

(** ** The Parameter a Module hands out *)



